(** * epoll.c: an edge-triggered echo server and its line client

    A shallow embedding of [src/epoll.c].  The C program is a single
    translation unit with three parts: option parsing in [main], the
    epoll event loop [server_run], and the interactive [client_run].
    Here the process is a record of its local variables together with
    the part of the kernel state it can observe (descriptor table,
    epoll interest list, accept queue), and every system call is a
    function on that record which also appends to a trace. *)

From stdpp Require Import gmap strings list fin_maps.
From Stdlib Require Import ZArith Lia.

Local Open Scope Z_scope.

(** ** Characters and C strings *)

(** A [char] is kept as its unsigned value; a C array is a [list Z]. *)
Definition char_of_ascii (a : Ascii.ascii) : Z := Z.of_N (Ascii.N_of_ascii a).

Fixpoint chars (s : string) : list Z :=
  match s with
  | EmptyString => []
  | String a r => char_of_ascii a :: chars r
  end.

(** The array a string literal denotes: its characters and the final NUL. *)
Definition literal (s : string) : list Z := chars s ++ [0].

Definition NL : Z := 10.

Module CString.

(** [bzero(p, n)]: the first [n] bytes of the array become zero. *)
Definition bzero (b : list Z) (n : nat) : list Z :=
  replicate (n `min` length b) 0 ++ drop n b.

(** Storing [src] at the start of the array [b]; what does not fit is
    not stored (callers pass a count no larger than the array). *)
Definition store (b src : list Z) : list Z :=
  take (length b) (src ++ drop (length src) b).

(** [strlen]: [None] when no NUL is met inside the array, that is when
    the C function would read past the object. *)
Fixpoint strlen (s : list Z) : option nat :=
  match s with
  | [] => None
  | c :: r => if decide (c = 0) then Some O else S <$> strlen r
  end.

(** [strcmp]: the difference of the first two differing characters, 0
    when both strings end together; [None] when one array ends first. *)
Fixpoint strcmp (s1 s2 : list Z) : option Z :=
  match s1, s2 with
  | c1 :: r1, c2 :: r2 =>
      if decide (c1 = c2)
      then if decide (c1 = 0) then Some 0 else strcmp r1 r2
      else Some (c1 - c2)
  | _, _ => None
  end.

(** [strftime(b, max, fmt, tm)] where [text] is what the format expands
    to: the text and a NUL are stored when they fit in [max] bytes and
    the length is returned.  Otherwise 0 is returned and C leaves the
    array contents unspecified; the array is kept as it was here, and
    no statement below depends on that case. *)
Definition strftime (b : list Z) (max : nat) (text : list Z) : nat * list Z :=
  if decide (length text < max)%nat
  then (length text, store b (text ++ [0]))
  else (O, b).

(** The text of an array: the characters before the first NUL. *)
Fixpoint text_of (s : list Z) : list Z :=
  match s with
  | [] => []
  | c :: r => if decide (c = 0) then [] else c :: text_of r
  end.

Definition nul_free (s : list Z) : Prop := Forall (λ c, c ≠ 0) s.

#[global] Instance nul_free_dec s : Decision (nul_free s).
Proof. unfold nul_free. apply _. Defined.

End CString.
Import CString.

(** ** Constants of the program and of the system headers *)

Definition MAX_CONN : Z := 16.
Definition MAX_EVENTS : nat := 32.
Definition BUF_SIZE : nat := 16.
Definition MAX_LINE : nat := 256.

Definition STDIN_FILENO : Z := 0.
Definition EXIT_SUCCESS : Z := 0.
Definition EXIT_FAILURE : Z := 1.

(** Event bits of Linux's <sys/epoll.h>. *)
Definition EPOLLIN : Z := 0x001.
Definition EPOLLOUT : Z := 0x004.
Definition EPOLLHUP : Z := 0x010.
Definition EPOLLRDHUP : Z := 0x2000.
Definition EPOLLET : Z := 0x80000000.

(** ** The process and the kernel state it sees *)

(** [struct sockaddr_in] of a peer, as [accept] fills it in. *)
Record peer := Peer { sin_addr : Z * Z * Z * Z; sin_port : Z }.

(** [struct epoll_event]: the event mask and the [data.fd] member. *)
Record epoll_event := Event { ev_events : Z; ev_fd : Z }.

(** Arguments of a [printf] call.  A [%s] argument is recorded as the
    array that is passed, and how [printf] renders it is left out; format
    strings keep their source spelling. *)
Inductive arg := AInt (n : Z) | AStr (s : list Z).

Inductive syscall :=
| Socket
| Bind (fd : Z)
| Listen (fd backlog : Z)
| EpollCreate
| Accept (fd : Z)
| SetNonblock (fd : Z)
| EpollAdd (fd mask : Z)
| EpollDel (fd : Z)
| Close (fd : Z)
| Read (fd : Z) (count : nat)
| Write (fd : Z) (bytes : list Z).

(** What the process does that can be seen from outside, in order. *)
Inductive action :=
| Printf (fmt : string) (args : list arg)
| Perror (msg : string)
| Sys (c : syscall) (ret : Z)
| Exit (code : Z).

(** [Undefined]: the program has gone outside an array, reading past its
    end in [strlen] or storing in front of it. *)
Inductive proc_status := Running | Exited (code : Z) | Undefined.

#[global] Instance proc_status_eq_dec : EqDecision proc_status.
Proof. solve_decision. Defined.

Record server := Server {
  (* locals of server_run *)
  epfd : Z;
  listen_sock : Z;
  buf : list Z;
  cli_addr : peer;
  (* kernel side *)
  open_fds : gset Z;          (* descriptor table of the process *)
  nonblock : gset Z;          (* descriptors with O_NONBLOCK set *)
  interest : gmap Z Z;        (* epoll interest list: fd -> event mask *)
  backlog : list peer;        (* established connections not yet accepted *)
  (* observable behaviour *)
  trace : list action;
  status : proc_status
}.

Definition with_epfd (fd : Z) (st : server) : server :=
  Server fd (listen_sock st) (buf st) (cli_addr st) (open_fds st)
         (nonblock st) (interest st) (backlog st) (trace st) (status st).

Definition with_listen_sock (fd : Z) (st : server) : server :=
  Server (epfd st) fd (buf st) (cli_addr st) (open_fds st)
         (nonblock st) (interest st) (backlog st) (trace st) (status st).

Definition with_buf (b : list Z) (st : server) : server :=
  Server (epfd st) (listen_sock st) b (cli_addr st) (open_fds st)
         (nonblock st) (interest st) (backlog st) (trace st) (status st).

Definition with_cli_addr (p : peer) (st : server) : server :=
  Server (epfd st) (listen_sock st) (buf st) p (open_fds st)
         (nonblock st) (interest st) (backlog st) (trace st) (status st).

Definition with_open_fds (o : gset Z) (st : server) : server :=
  Server (epfd st) (listen_sock st) (buf st) (cli_addr st) o
         (nonblock st) (interest st) (backlog st) (trace st) (status st).

Definition with_nonblock (nb : gset Z) (st : server) : server :=
  Server (epfd st) (listen_sock st) (buf st) (cli_addr st) (open_fds st)
         nb (interest st) (backlog st) (trace st) (status st).

Definition with_interest (i : gmap Z Z) (st : server) : server :=
  Server (epfd st) (listen_sock st) (buf st) (cli_addr st) (open_fds st)
         (nonblock st) i (backlog st) (trace st) (status st).

Definition with_backlog (q : list peer) (st : server) : server :=
  Server (epfd st) (listen_sock st) (buf st) (cli_addr st) (open_fds st)
         (nonblock st) (interest st) q (trace st) (status st).

Definition with_status (s : proc_status) (st : server) : server :=
  Server (epfd st) (listen_sock st) (buf st) (cli_addr st) (open_fds st)
         (nonblock st) (interest st) (backlog st) (trace st) s.

Definition log (a : action) (st : server) : server :=
  Server (epfd st) (listen_sock st) (buf st) (cli_addr st) (open_fds st)
         (nonblock st) (interest st) (backlog st) (trace st ++ [a]) (status st).

Definition running (st : server) : bool :=
  bool_decide (status st = Running).

(** ** System calls *)

(** Descriptor numbers are never negative; the kernel answers EBADF for
    a negative number before it looks at the table. *)
Definition is_open (st : server) (fd : Z) : Prop :=
  0 ≤ fd ∧ fd ∈ open_fds st.

#[global] Instance is_open_dec st fd : Decision (is_open st fd).
Proof. unfold is_open. apply _. Defined.

(** The kernel hands out the lowest descriptor number not in use. *)
Fixpoint lowest_free_from (fuel : nat) (n : Z) (s : gset Z) : Z :=
  if decide (n ∈ s)
  then match fuel with
       | O => n
       | S f => lowest_free_from f (n + 1) s
       end
  else n.

Definition lowest_free (s : gset Z) : Z := lowest_free_from (size s) 0 s.

(** [accept(sock, &cli_addr, &socklen)] on a non-blocking listening
    socket: -1 when [sock] is not open or nothing is pending. *)
Definition sys_accept (st : server) (sock : Z) : Z * server :=
  match backlog st with
  | p :: rest =>
      if decide (is_open st sock)
      then let fd := lowest_free (open_fds st) in
           (fd, log (Sys (Accept sock) fd)
                  (with_cli_addr p
                     (with_backlog rest
                        (with_open_fds ({[fd]} ∪ open_fds st) st))))
      else (-1, log (Sys (Accept sock) (-1)) st)
  | [] => (-1, log (Sys (Accept sock) (-1)) st)
  end.

(** [setnonblocking] (lines 103-113): both [fcntl] calls fail on a
    descriptor that is not open. *)
Definition setnonblocking (st : server) (sockfd : Z) : Z * server :=
  if decide (is_open st sockfd)
  then (0, log (Sys (SetNonblock sockfd) 0)
             (with_nonblock ({[sockfd]} ∪ nonblock st) st))
  else (-1, log (Sys (SetNonblock sockfd) (-1)) st).

(** [epoll_ctl(epfd, EPOLL_CTL_ADD, fd, &ev)]: fails with EBADF on a
    descriptor that is not open, EINVAL on the epoll descriptor itself
    and EEXIST on one that is registered already. *)
Definition sys_epoll_add (st : server) (fd mask : Z) : Z * server :=
  if decide (is_open st (epfd st) ∧ is_open st fd ∧ fd ≠ epfd st
             ∧ interest st !! fd = None)
  then (0, log (Sys (EpollAdd fd mask) 0)
             (with_interest (<[fd := mask]> (interest st)) st))
  else (-1, log (Sys (EpollAdd fd mask) (-1)) st).

(** [epoll_ctl(epfd, EPOLL_CTL_DEL, fd, NULL)]. *)
Definition sys_epoll_del (st : server) (fd : Z) : Z * server :=
  if decide (is_open st (epfd st) ∧ is_Some (interest st !! fd))
  then (0, log (Sys (EpollDel fd) 0)
             (with_interest (delete fd (interest st)) st))
  else (-1, log (Sys (EpollDel fd) (-1)) st).

(** [close(fd)].  Closing a descriptor also takes it out of the interest
    list; closing the epoll descriptor discards the whole list. *)
Definition sys_close (st : server) (fd : Z) : Z * server :=
  if decide (is_open st fd)
  then (0, log (Sys (Close fd) 0)
             (with_interest
                (if decide (fd = epfd st) then ∅ else delete fd (interest st))
                (with_nonblock (nonblock st ∖ {[fd]})
                   (with_open_fds (open_fds st ∖ {[fd]}) st))))
  else (-1, log (Sys (Close fd) (-1)) st).

(** [exit(code)]. *)
Definition sys_exit (st : server) (code : Z) : server :=
  with_status (Exited code) (log (Exit code) st).

(** What the environment supplies for one turn of a read loop: the bytes
    the next [read] finds (none: end of file or EAGAIN), the value the
    following [write] returns, and the value of [time(NULL)]. *)
Record chunk_io := ChunkIO { data : list Z; wr_ret : Z; clock : Z }.

(** [read(fd, buf, count)]: stores at most [count] bytes into [buf]. *)
Definition sys_read (st : server) (fd : Z) (count : nat) (io : chunk_io)
  : Z * server :=
  if decide (is_open st fd)
  then let got := take count (data io) in
       (Z.of_nat (length got),
        log (Sys (Read fd count) (Z.of_nat (length got)))
            (with_buf (store (buf st) got) st))
  else (-1, log (Sys (Read fd count) (-1)) st).

(** [write(fd, p, len)] as far as it returns: the bytes handed over and
    the result.  Signals are not part of this model.  The program leaves
    SIGPIPE at its default action, so a [write] to a socket whose peer has
    gone ends the process inside the call; no value of [wr_ret] stands for
    that, and nothing proved below speaks of it. *)
Definition sys_write (st : server) (fd : Z) (bytes : list Z) (io : chunk_io)
  : Z * server :=
  let r := if decide (is_open st fd) then wr_ret io else -1 in
  (r, log (Sys (Write fd bytes) r) st).

(** A connection completes the handshake and waits in the accept queue. *)
Definition arrive (p : peer) (st : server) : server :=
  with_backlog (backlog st ++ [p]) st.

(** ** Library calls of server_run *)

Definition digit (d : Z) : Z := 48 + d.

Definition decimal_octet (n : Z) : list Z :=
  if decide (n < 10) then [digit n]
  else if decide (n < 100) then [digit (n / 10); digit (n mod 10)]
  else [digit (n / 100); digit (n / 10 mod 10); digit (n mod 10)].

(** [inet_ntop(AF_INET, ...)]: dotted decimal text of the address. *)
Definition inet_ntop (a : Z * Z * Z * Z) : list Z :=
  let '(a1, a2, a3, a4) := a in
  decimal_octet a1 ++ [46] ++ decimal_octet a2 ++ [46]
  ++ decimal_octet a3 ++ [46] ++ decimal_octet a4.

(** What [strftime] expands "%x" and "%X" to for [localtime] of a given
    [time_t]; it depends on the locale and time zone of the process. *)
Record locale := Locale { fmt_x : Z → list Z; fmt_X : Z → list Z }.

Definition date_token : list Z := chars "%date%".
Definition time_token : list Z := chars "%time%".
Definition exit_line : list Z := chars "exit" ++ [NL].

Section ServerRun.

Context (L : locale).

(** [epoll_ctl_add] (lines 77-90). *)
Definition epoll_ctl_add (st : server) (fd events : Z) : server :=
  let '(r, st) := sys_epoll_add st fd events in
  if decide (r = -1)
  then sys_exit (log (Perror "epoll_ctl()\n") st) EXIT_FAILURE
  else st.

(** Lines 183-197: the branch taken for an event on [listen_sock]. *)
Definition accept_branch (st : server) : server :=
  let '(conn_sock, st) := sys_accept st (listen_sock st) in
  let st := with_buf (store (buf st)
                        (inet_ntop (sin_addr (cli_addr st)) ++ [0])) st in
  let st := log (Printf "[+] connected with %s:%d\n"
                        [AStr (buf st); AInt (sin_port (cli_addr st))]) st in
  let '(_, st) := setnonblocking st conn_sock in
  epoll_ctl_add st conn_sock
    (Z.lor (Z.lor (Z.lor EPOLLIN EPOLLET) EPOLLRDHUP) EPOLLHUP).

(** Lines 208-214: what is done with a chunk read from stdin.  In the
    [else] branch [printf] is given [buf] for its [%s]: it reads the array
    up to a terminator, as [strlen] does, and past its end when there is
    none. *)
Definition stdin_chunk (st : server) (n : Z) : server :=
  match strcmp (buf st) (exit_line ++ [0]) with
  | None => with_status Undefined st
  | Some 0 =>
      let '(_, st) := sys_close st (listen_sock st) in
      let '(_, st) := sys_close st (epfd st) in
      sys_exit st EXIT_SUCCESS
  | Some _ =>
      match strlen (buf st) with
      | None => with_status Undefined st
      | Some _ =>
          log (Printf "[+] stdin (%d bytes): %s\n" [AInt n; AStr (buf st)]) st
      end
  end.

Definition no_data : chunk_io := ChunkIO [] 0 0.

(** Lines 201-215: the body of the read loop on stdin.  The boolean
    tells whether the loop goes round again. *)
Definition stdin_turn (st : server) (io : chunk_io) : bool * server :=
  let st := with_buf (bzero (buf st) BUF_SIZE) st in
  let '(n, st) := sys_read st STDIN_FILENO BUF_SIZE io in
  if decide (n ≤ 0) then (false, st)
  else let st := stdin_chunk st n in (running st, st).

(** Lines 200-216: the loop, run on what the successive reads find;
    after the last chunk the next [read] finds nothing. *)
Fixpoint stdin_loop (st : server) (ios : list chunk_io) : server :=
  match ios with
  | [] => (stdin_turn st no_data).2
  | io :: rest =>
      let '(again, st) := stdin_turn st io in
      if again then stdin_loop st rest else st
  end.

(** Lines 229-237: the two reserved requests. *)
Definition substitute (t : Z) (b : list Z) : option (list Z) :=
  match strcmp b (literal "%date%") with
  | None => None
  | Some 0 => Some (strftime b BUF_SIZE (fmt_x L t)).2
  | Some _ =>
      match strcmp b (literal "%time%") with
      | None => None
      | Some 0 => Some (strftime b BUF_SIZE (fmt_X L t)).2
      | Some _ => Some b
      end
  end.

(** Lines 226-244: what is done with a chunk read from a client. *)
Definition echo_chunk (st : server) (fd n : Z) (io : chunk_io) : server :=
  let st := log (Printf "[+] data (%d bytes): %s" [AInt n; AStr (buf st)]) st in
  match substitute (clock io) (buf st) with
  | None => with_status Undefined st
  | Some b =>
      let st := with_buf b st in
      match strlen b with
      | None => with_status Undefined st
      | Some k =>
          let '(r, st) := sys_write st fd (take k b) io in
          let st := if decide (r < 0) then log (Perror "[!] write()") st
                    else st in
          log (Printf " -> %s\n" [AStr b]) st
      end
  end.

(** Lines 220-245: the body of the read loop on a client socket. *)
Definition conn_turn (st : server) (fd : Z) (io : chunk_io)
  : bool * server :=
  let st := with_buf (bzero (buf st) BUF_SIZE) st in
  let '(n, st) := sys_read st fd BUF_SIZE io in
  if decide (n ≤ 0) then (false, st)
  else let st := echo_chunk st fd n io in (running st, st).

(** Lines 219-246: the loop. *)
Fixpoint conn_loop (st : server) (fd : Z) (ios : list chunk_io) : server :=
  match ios with
  | [] => (conn_turn st fd no_data).2
  | io :: rest =>
      let '(again, st) := conn_turn st fd io in
      if again then conn_loop st fd rest else st
  end.

Definition has_bits (events mask : Z) : bool :=
  bool_decide (Z.land events mask ≠ 0).

(** Lines 183-249: routing on the identity of the event. *)
Definition route (st : server) (ev : epoll_event) (ios : list chunk_io)
  : server :=
  if decide (ev_fd ev = listen_sock st) then accept_branch st
  else if decide (ev_fd ev = STDIN_FILENO) then stdin_loop st ios
  else if has_bits (ev_events ev) EPOLLIN then conn_loop st (ev_fd ev) ios
  else log (Printf "[+] unexpected\n" []) st.

(** Lines 251-260. *)
Definition closing_check (st : server) (ev : epoll_event) : server :=
  if has_bits (ev_events ev) (Z.lor EPOLLRDHUP EPOLLHUP)
  then let st := log (Printf "[+] connection closed\n" []) st in
       let '(_, st) := sys_epoll_del st (ev_fd ev) in
       let '(_, st) := sys_close st (ev_fd ev) in
       st
  else st.

(** One turn of the inner [for] loop (lines 182-261). *)
Definition handle_event (st : server) (ev : epoll_event)
  (ios : list chunk_io) : server :=
  let st := route st ev ios in
  if running st then closing_check st ev else st.

(** The events of one [epoll_wait], at most [MAX_EVENTS] of them, each
    with what its read loop will find. *)
Fixpoint dispatch (st : server) (evs : list (epoll_event * list chunk_io))
  : server :=
  match evs with
  | [] => st
  | (ev, ios) :: rest =>
      let st := handle_event st ev ios in
      if running st then dispatch st rest else st
  end.

(** The outer loop, for as many rounds as the environment describes:
    the connections that arrive before the wait, then its events. *)
Fixpoint server_loop (st : server)
  (rounds : list (list peer * list (epoll_event * list chunk_io)))
  : server :=
  match rounds with
  | [] => st
  | (ps, evs) :: rest =>
      let st := foldl (λ s p, arrive p s) st ps in
      let st := dispatch st (take MAX_EVENTS evs) in
      if running st then server_loop st rest else st
  end.

End ServerRun.

(** ** Start of server_run (lines 131-174) *)

(** Which of the set-up calls the kernel lets succeed. *)
Record boot_env := BootEnv {
  socket_ok : bool; bind_ok : bool; listen_ok : bool; epoll_create_ok : bool
}.

(** The process on entry to [server_run]: descriptors inherited from the
    parent, locals holding whatever the stack held. *)
Definition boot (inherited : gset Z) (stack_buf : list Z) (stack_addr : peer)
  : server :=
  Server (-1) (-1) stack_buf stack_addr inherited ∅ ∅ [] [] Running.

Definition sys_socket (st : server) (ok : bool) : Z * server :=
  if ok
  then let fd := lowest_free (open_fds st) in
       (fd, log (Sys Socket fd) (with_open_fds ({[fd]} ∪ open_fds st) st))
  else (-1, log (Sys Socket (-1)) st).

Definition sys_bind (st : server) (fd : Z) (ok : bool) : Z * server :=
  let r := if ok && bool_decide (is_open st fd) then 0 else -1 in
  (r, log (Sys (Bind fd) r) st).

Definition sys_listen (st : server) (fd n : Z) (ok : bool) : Z * server :=
  let r := if ok && bool_decide (is_open st fd) then 0 else -1 in
  (r, log (Sys (Listen fd n) r) st).

Definition sys_epoll_create (st : server) (ok : bool) : Z * server :=
  if ok
  then let fd := lowest_free (open_fds st) in
       (fd, log (Sys EpollCreate fd)
              (with_interest ∅ (with_open_fds ({[fd]} ∪ open_fds st) st)))
  else (-1, log (Sys EpollCreate (-1)) st).

Definition fatal (st : server) (msg : string) : server :=
  sys_exit (log (Perror msg) st) EXIT_FAILURE.

Definition server_start (env : boot_env) (st : server) : server :=
  let '(fd, st) := sys_socket st (socket_ok env) in
  let st := with_listen_sock fd st in
  if decide (fd < 0)
  then fatal st "[!] Cannot create socket file descriptor\n" else
  let '(r, st) := sys_bind st (listen_sock st) (bind_ok env) in
  if decide (r < 0) then fatal st "[!] Cannot bind the socket\n" else
  let '(r, st) := setnonblocking st (listen_sock st) in
  if decide (r < 0)
  then fatal st "[!] Cannot set the socket to non-blocking mode\n" else
  let '(r, st) := sys_listen st (listen_sock st) MAX_CONN (listen_ok env) in
  if decide (r < 0) then fatal st "[!] Cannot listen on the socket\n" else
  let '(fd, st) := sys_epoll_create st (epoll_create_ok env) in
  let st := with_epfd fd st in
  if decide (fd = -1)
  then fatal st "[!] Cannot create epoll file descriptor\n" else
  let st := epoll_ctl_add st (listen_sock st)
              (Z.lor (Z.lor EPOLLIN EPOLLOUT) EPOLLET) in
  if running st
  then epoll_ctl_add st STDIN_FILENO (Z.lor EPOLLIN EPOLLET)
  else st.

(** ** client_run: the loop of lines 285-311 *)

Record client := Client {
  sockfd : Z;
  line_buf : list Z;          (* char buf[MAX_LINE] *)
  stdin_rest : list Z;        (* what is still to be read from stdin *)
  sock_open : bool;
  c_trace : list action;
  c_status : proc_status
}.

(** The characters [fgets] takes from the stream: up to and including
    the first newline, at most [n] of them. *)
Fixpoint fgets_take (n : nat) (input : list Z) : list Z * list Z :=
  match n, input with
  | S n', c :: r =>
      if decide (c = NL) then ([c], r)
      else let '(l, r') := fgets_take n' r in (c :: l, r')
  | _, _ => ([], input)
  end.

(** [fgets(b, size, stdin)]: at end of file nothing is stored. *)
Definition fgets (b : list Z) (size : nat) (input : list Z)
  : list Z * list Z :=
  let '(l, rest) := fgets_take (size - 1) input in
  match l with
  | [] => (b, rest)
  | _ => (store b (l ++ [0]), rest)
  end.

Definition c_log (a : action) (cl : client) : client :=
  Client (sockfd cl) (line_buf cl) (stdin_rest cl) (sock_open cl)
         (c_trace cl ++ [a]) (c_status cl).

Definition c_with_buf (b : list Z) (cl : client) : client :=
  Client (sockfd cl) b (stdin_rest cl) (sock_open cl)
         (c_trace cl) (c_status cl).

Definition c_with_status (s : proc_status) (cl : client) : client :=
  Client (sockfd cl) (line_buf cl) (stdin_rest cl) (sock_open cl)
         (c_trace cl) s.

(** Lines 300-307: printing what comes back until [c] bytes have been
    seen or a [read] returns nothing.  [errno] is not modelled: the loop
    is entered as when no earlier call has left EAGAIN there. *)
Fixpoint recv_loop (cl : client) (c : Z) (replies : list (list Z)) : client :=
  match replies with
  | [] => c_log (Sys (Read (sockfd cl) MAX_LINE) 0) cl
  | r :: rest =>
      let got := take MAX_LINE r in
      let n := Z.of_nat (length got) in
      let cl := c_log (Sys (Read (sockfd cl) MAX_LINE) n)
                  (c_with_buf (store (line_buf cl) got) cl) in
      if decide (n ≤ 0) then cl
      else
        let cl := c_log (Printf "echo: %s\n" [AStr (line_buf cl)]) cl in
        let cl := c_with_buf (bzero (line_buf cl) MAX_LINE) cl in
        if decide (c - n ≤ 0) then cl else recv_loop cl (c - n) rest
  end.

(** Lines 311 and 74: leaving the loop closes the socket and [main]
    returns EXIT_SUCCESS. *)
Definition client_leave (cl : client) : client :=
  Client (sockfd cl) (line_buf cl) (stdin_rest cl) false
         (c_trace cl ++ [Sys (Close (sockfd cl)) 0; Exit EXIT_SUCCESS])
         (Exited EXIT_SUCCESS).

(** One turn of the loop of lines 285-308, given what the reads of the
    inner loop will find. *)
Definition client_turn (cl : client) (replies : list (list Z)) : client :=
  let cl := c_log (Printf "input: " []) cl in
  let '(b, rest) := fgets (line_buf cl) MAX_LINE (stdin_rest cl) in
  let cl := Client (sockfd cl) b rest (sock_open cl)
                   (c_trace cl) (c_status cl) in
  match strlen b with
  | None => c_with_status Undefined cl
  | Some O => c_with_status Undefined cl      (* buf[-1] = '\0' *)
  | Some (S c) =>
      let b := <[c := 0]> b in
      let cl := c_with_buf b cl in
      match strcmp b (literal "exit") with
      | None => c_with_status Undefined cl
      | Some 0 => client_leave cl
      | Some _ =>
          let cl := c_log (Sys (Write (sockfd cl) (take (S c) b))
                               (Z.of_nat (S c))) cl in
          let cl := c_with_buf (bzero b MAX_LINE) cl in
          recv_loop cl (Z.of_nat c) replies
      end
  end.

(** The bytes the client has handed to [write], call by call. *)
Definition sent (t : list action) : list (list Z) :=
  omap (λ a, match a with Sys (Write _ bs) _ => Some bs | _ => None end) t.

(** ** main (lines 32-75) and set_sockaddr (lines 92-101) *)

Definition INADDR_ANY : Z := 0.
Definition INADDR_NONE : Z := 0xffffffff.
Definition DEFAULT_ADDR : Z := INADDR_ANY.
Definition DEFAULT_PORT : Z := 9090.
Definition AF_INET : Z := 2.
Definition INT_MIN : Z := -0x80000000.
Definition INT_MAX : Z := 0x7fffffff.

(** The option characters of the [switch], and what [getopt] answers for
    an option it does not know or whose argument is missing. *)
Definition opt_c : Z := 99.
Definition opt_s : Z := 115.
Definition opt_a : Z := 97.
Definition opt_p : Z := 112.
Definition opt_unknown : Z := 63.

Definition isspace (c : Z) : bool :=
  bool_decide (c = 32) || bool_decide (9 ≤ c ≤ 13).

Definition isdigit (c : Z) : bool := bool_decide (48 ≤ c ≤ 57).

Fixpoint skip_space (s : list Z) : list Z :=
  match s with
  | c :: r => if isspace c then skip_space r else s
  | [] => []
  end.

Fixpoint atoi_digits (acc : Z) (s : list Z) : Z :=
  match s with
  | c :: r => if isdigit c then atoi_digits (10 * acc + (c - 48)) r else acc
  | [] => acc
  end.

(** [atoi] on the text of its argument: white space, an optional sign,
    then decimal digits as far as they go.  C leaves the result undefined
    when it is not an [int]; callers test the range. *)
Definition atoi (s : list Z) : Z :=
  match skip_space s with
  | c :: r =>
      if decide (c = 45) then - atoi_digits 0 r
      else if decide (c = 43) then atoi_digits 0 r
      else atoi_digits 0 (c :: r)
  | [] => 0
  end.

(** The globals [address] and [port], the local [role], and what [main]
    has printed. *)
Record main_state := MainState {
  address : Z;                (* in_addr_t *)
  port : Z;                   (* unsigned short *)
  role : Z;                   (* char *)
  m_trace : list action
}.

Definition m_log (a : action) (s : main_state) : main_state :=
  MainState (address s) (port s) (role s) (m_trace s ++ [a]).

(** How [main] goes on after the options: it returns at once, it calls
    [server_run] or [client_run], or [atoi] was undefined. *)
Inductive main_outcome :=
| Returned (code : Z) (s : main_state)
| RunServer (s : main_state)
| RunClient (s : main_state)
| AtoiUndefined (s : main_state).

Definition main_start : main_state :=
  MainState DEFAULT_ADDR DEFAULT_PORT opt_s [].

Section Main.

(** [inet_addr] of libc: the address in network byte order, INADDR_NONE
    when the text is not an address. *)
Context (inet_addr : list Z → Z).

(** The loop of lines 37-66 over what the successive [getopt] calls
    answer: the option character and the text of [optarg]. *)
Fixpoint main_loop (s : main_state) (opts : list (Z * list Z))
  : main_outcome :=
  match opts with
  | [] => if decide (role s = opt_s) then RunServer s else RunClient s
  | (opt, optarg) :: rest =>
      if decide (opt = opt_c)
      then main_loop (MainState (address s) (port s) opt_c (m_trace s)) rest
      else if decide (opt = opt_s) then main_loop s rest
      else if decide (opt = opt_a) then
        let s := MainState (inet_addr optarg) (port s) (role s) (m_trace s) in
        let s := m_log (Printf "address: %s -> %x\n"
                          [AStr optarg; AInt (address s)]) s in
        if decide (address s = INADDR_NONE)
        then Returned EXIT_FAILURE
               (m_log (Perror "Cannot convert the address\n") s)
        else main_loop s rest
      else if decide (opt = opt_p) then
        if decide (INT_MIN ≤ atoi optarg ≤ INT_MAX) then
          let s := MainState (address s) (atoi optarg mod 65536) (role s)
                     (m_trace s) in
          let s := m_log (Printf "port: %u\n" [AInt (port s)]) s in
          if decide (port s = 0)
          then Returned EXIT_FAILURE
                 (m_log (Perror "Cannot convert the port number\n") s)
          else main_loop s rest
        else AtoiUndefined s
      else Returned EXIT_FAILURE
             (m_log (Printf "usage: %s [-cs] [-a address] [-p port]\n" []) s)
  end.

Definition main (opts : list (Z * list Z)) : main_outcome :=
  main_loop main_start opts.

(** An option that lets the loop go on. *)
Definition option_accepted (o : Z * list Z) : Prop :=
  o.1 = opt_c ∨ o.1 = opt_s
  ∨ (o.1 = opt_a ∧ inet_addr o.2 ≠ INADDR_NONE)
  ∨ (o.1 = opt_p ∧ INT_MIN ≤ atoi o.2 ≤ INT_MAX ∧ atoi o.2 mod 65536 ≠ 0).

#[global] Instance option_accepted_dec o : Decision (option_accepted o).
Proof. unfold option_accepted. apply _. Defined.

(** The address and the port the options ask for, the later option
    winning. *)
Definition addr_of (o : Z * list Z) : option Z :=
  if decide (o.1 = opt_a) then Some (inet_addr o.2) else None.

Definition port_of (o : Z * list Z) : option Z :=
  if decide (o.1 = opt_p) then Some (atoi o.2 mod 65536) else None.

Definition wanted_address (opts : list (Z * list Z)) : Z :=
  default DEFAULT_ADDR (last (omap addr_of opts)).

Definition wanted_port (opts : list (Z * list Z)) : Z :=
  default DEFAULT_PORT (last (omap port_of opts)).

End Main.

(** [htons] and [ntohs]: the two bytes change places on a little-endian
    host and stay on a big-endian one. *)
Definition swap16 (x : Z) : Z := x mod 256 * 256 + x / 256 mod 256.

Definition htons (little_endian : bool) (x : Z) : Z :=
  if little_endian then swap16 x else x mod 65536.

Definition ntohs (little_endian : bool) (x : Z) : Z := htons little_endian x.

(** The two bytes of a 16-bit object in memory, lowest address first. *)
Definition bytes16 (little_endian : bool) (x : Z) : list Z :=
  if little_endian then [x mod 256; x / 256 mod 256]
  else [x / 256 mod 256; x mod 256].

(** [struct sockaddr_in]: family, port and address as stored, and the
    padding. *)
Record sockaddr_in := SockAddr {
  sa_family : Z; sa_port : Z; sa_addr : Z; sa_zero : list Z
}.

(** [set_sockaddr] (lines 92-101). *)
Definition set_sockaddr (little_endian : bool) (s : main_state)
  : sockaddr_in :=
  SockAddr AF_INET (htons little_endian (port s)) (address s) (replicate 8 0).

(** An [inet_addr] that knows one address, for the sample runs. *)
Definition sample_inet_addr (s : list Z) : Z :=
  if decide (s = chars "127.0.0.1") then 0x0100007f else INADDR_NONE.

(** ** Invariants, and a sample run *)

(** The array [buf] has [BUF_SIZE] elements. *)
Definition buf_ok (st : server) : Prop := length (buf st) = BUF_SIZE.

(** Whatever is in the interest list is an open descriptor. *)
Definition registered_open (st : server) : Prop :=
  ∀ fd mask, interest st !! fd = Some mask → is_open st fd.

#[global] Instance registered_open_dec st : Decision (registered_open st).
Proof.
  unfold registered_open.
  apply (map_Forall_dec (λ fd (_ : Z), is_open st fd)).
Defined.

(** Two states that differ at most in [buf], the trace and the status. *)
Definition same_kernel (st st' : server) : Prop :=
  epfd st' = epfd st ∧ listen_sock st' = listen_sock st
  ∧ cli_addr st' = cli_addr st ∧ open_fds st' = open_fds st
  ∧ nonblock st' = nonblock st ∧ interest st' = interest st
  ∧ backlog st' = backlog st.

(** The interest set asked for on an accepted connection (line 197). *)
Definition conn_interest : Z :=
  Z.lor (Z.lor (Z.lor EPOLLIN EPOLLET) EPOLLRDHUP) EPOLLHUP.

(** The calls to [accept] and to [write] recorded in a trace. *)
Definition accepts (t : list action) : list Z :=
  omap (λ a, match a with Sys (Accept _) r => Some r | _ => None end) t.

Definition writes (t : list action) : list (Z * list Z) :=
  omap (λ a, match a with
             | Sys (Write fd bs) _ => Some (fd, bs)
             | _ => None
             end) t.

(** What [read] leaves in the zeroed array. *)
Definition padded (chunk : list Z) : list Z :=
  chunk ++ replicate (BUF_SIZE - length chunk) 0.

(** The state after a turn of the read loop on a client socket in which
    [chunk] was read, the array then held [b'], and [write] returned [r]. *)
Definition after_echo (st : server) (fd : Z) (chunk b' : list Z) (r : Z)
  : server :=
  log (Printf " -> %s\n" [AStr b'])
    ((if decide (r < 0) then log (Perror "[!] write()") else id)
       (log (Sys (Write fd (text_of b')) r)
          (with_buf b'
             (log (Printf "[+] data (%d bytes): %s"
                     [AInt (Z.of_nat (length chunk)); AStr (padded chunk)])
                (log (Sys (Read fd BUF_SIZE) (Z.of_nat (length chunk)))
                   (with_buf (padded chunk) st)))))).

(** From [st] to [st'] every [write] went to descriptor [fd]. *)
Definition writes_only_to (fd : Z) (st st' : server) : Prop :=
  ∃ ws, writes (trace st') = writes (trace st) ++ ws
        ∧ Forall (λ w : Z * list Z, w.1 = fd) ws.

(** A chunk the echo loop passes through: not empty, short enough to
    leave a terminator in the array, and no reserved request. *)
Definition plain_chunk (io : chunk_io) : Prop :=
  (0 < length (data io) ≤ 15)%nat
  ∧ text_of (data io) ≠ date_token ∧ text_of (data io) ≠ time_token.

#[global] Instance plain_chunk_dec io : Decision (plain_chunk io).
Proof. unfold plain_chunk. apply _. Defined.

(** A chunk read from stdin that is not the exit command and leaves a
    terminator in the array: it is shorter than the array or holds a NUL
    byte among its first [BUF_SIZE] bytes. *)
Definition other_input (io : chunk_io) : Prop :=
  data io ≠ [] ∧ text_of (take BUF_SIZE (data io)) ≠ exit_line
  ∧ ((length (data io) < BUF_SIZE)%nat
     ∨ ¬ nul_free (take BUF_SIZE (data io))).

#[global] Instance other_input_dec io : Decision (other_input io).
Proof. unfold other_input. apply _. Defined.

(** What a turn of the read loop on stdin adds to the trace for such a
    chunk: the [read] and one [printf] of the array. *)
Definition stdin_logged (io : chunk_io) : list action :=
  let chunk := take BUF_SIZE (data io) in
  [Sys (Read STDIN_FILENO BUF_SIZE) (Z.of_nat (length chunk));
   Printf "[+] stdin (%d bytes): %s\n"
     [AInt (Z.of_nat (length chunk)); AStr (padded chunk)]].

(** The four octets of an address are bytes. *)
Definition octets_ok (a : Z * Z * Z * Z) : Prop :=
  let '(a1, a2, a3, a4) := a in
  0 ≤ a1 ≤ 255 ∧ 0 ≤ a2 ≤ 255 ∧ 0 ≤ a3 ≤ 255 ∧ 0 ≤ a4 ≤ 255.

(** What the "C" locale prints for the epoch in UTC; the sample does not
    look at the clock. *)
Definition sample_locale : locale :=
  Locale (λ _, chars "01/01/70") (λ _, chars "00:00:00").

(** A process started from a shell: descriptors 0, 1 and 2 are open. *)
Definition sample_boot : server :=
  boot {[0; 1; 2]} (replicate BUF_SIZE 7) (Peer (0, 0, 0, 0) 0).

Definition sample_started : server :=
  server_start (BootEnv true true true true) sample_boot.

Definition sample_peer : peer := Peer (127, 0, 0, 1) 40000.

(** Two clients connect before the server looks at the listening socket. *)
Definition sample_two_pending : server :=
  arrive sample_peer (arrive sample_peer sample_started).

(** One client is connected, as descriptor 5. *)
Definition sample_connected : server :=
  handle_event sample_locale (arrive sample_peer sample_started)
    (Event EPOLLIN 3) [].

Definition sample_client (input : list Z) : client :=
  Client 3 (replicate MAX_LINE 0) input true [] Running.

(** * Properties *)

(** ** C strings in fixed arrays *)

Section CStringFacts.

Implicit Types (b s t d r : list Z) (n k m : nat).

Lemma length_bzero b n : length (bzero b n) = length b.
Proof.
  unfold bzero. rewrite length_app, length_replicate, length_drop. lia.
Qed.

Lemma bzero_whole b n : length b = n → bzero b n = replicate n 0.
Proof.
  intros <-. unfold bzero.
  rewrite drop_all, app_nil_r. f_equal. lia.
Qed.

Lemma length_store b d : length (store b d) = length b.
Proof.
  unfold store. rewrite length_take, length_app, length_drop. lia.
Qed.

Lemma store_zeros n d :
  (length d ≤ n)%nat →
  store (replicate n 0) d = d ++ replicate (n - length d) 0.
Proof.
  intros Hd. unfold store.
  rewrite length_replicate, drop_replicate.
  apply take_ge. rewrite length_app, length_replicate. lia.
Qed.

Lemma store_prefix b d :
  (length d ≤ length b)%nat → store b d = d ++ drop (length d) b.
Proof.
  intros Hd. unfold store.
  apply take_ge. rewrite length_app, length_drop. lia.
Qed.

Lemma text_of_nul_free s : nul_free (text_of s).
Proof.
  induction s as [|c s IH]; simpl; [constructor|].
  destruct (decide (c = 0)); [constructor | by constructor].
Qed.

Lemma text_of_id t : nul_free t → text_of t = t.
Proof.
  induction 1 as [|c t Hc _ IH]; simpl; [done|].
  destruct (decide (c = 0)); [done | by rewrite IH].
Qed.

Lemma text_of_app_nul t r : nul_free t → text_of (t ++ 0 :: r) = t.
Proof.
  induction 1 as [|c t Hc _ IH]; simpl; [done|].
  destruct (decide (c = 0)); [done | by rewrite IH].
Qed.

Lemma text_of_app_zeros d m : text_of (d ++ replicate m 0) = text_of d.
Proof.
  induction d as [|c d IH]; simpl.
  - by destruct m.
  - destruct (decide (c = 0)); [done | by rewrite IH].
Qed.

Lemma text_of_length s : (length (text_of s) ≤ length s)%nat.
Proof.
  induction s as [|c s IH]; simpl; [lia|].
  destruct (decide (c = 0)); simpl; lia.
Qed.

(** [strlen] finds a terminator exactly when the array holds a NUL,
    and then counts the text. *)
Lemma strlen_Some s k :
  strlen s = Some k → k = length (text_of s) ∧ take k s = text_of s.
Proof.
  revert k. induction s as [|c s IH]; intros k; simpl; [done|].
  destruct (decide (c = 0)).
  - intros [= <-]. done.
  - destruct (strlen s) as [k'|]; simpl; [|done].
    intros [= <-]. destruct (IH k' eq_refl) as [Hk Ht].
    simpl. rewrite Ht. by rewrite Hk at 1.
Qed.

Lemma strlen_None s : strlen s = None ↔ nul_free s.
Proof.
  induction s as [|c s IH]; simpl.
  - split; [constructor | done].
  - destruct (decide (c = 0)) as [->|Hc].
    + split; [done|]. by inversion 1.
    + destruct (strlen s) as [k|]; simpl.
      * split; [done|]. inversion 1; subst.
        assert (Some k = None) by by apply IH. done.
      * split; [|done]. intros _. constructor; [done | by apply IH].
Qed.

Lemma strlen_short s :
  (length (text_of s) < length s)%nat →
  strlen s = Some (length (text_of s)).
Proof.
  induction s as [|c s IH]; simpl; [lia|].
  destruct (decide (c = 0)); [done|]. simpl. intros Hl.
  rewrite IH; [done | lia].
Qed.

(** Comparing an array with a literal never leaves the array when the
    array is longer than the literal's text. *)
Lemma strcmp_literal_defined t b :
  (length t < length b)%nat → is_Some (strcmp b (t ++ [0])).
Proof.
  revert b. induction t as [|x t IH]; intros [|c b]; simpl; try lia.
  - intros _. destruct (decide (c = 0)); eauto.
  - intros Hl. destruct (decide (c = x)); [|eauto].
    destruct (decide (c = 0)); [eauto|]. apply IH. lia.
Qed.

(** [strcmp] against a literal answers 0 exactly when the text of the
    array is the literal's text. *)
Lemma strcmp_literal_zero t b :
  nul_free t → (length t < length b)%nat →
  strcmp b (t ++ [0]) = Some 0 ↔ text_of b = t.
Proof.
  intros Ht. revert b.
  induction Ht as [|x t Hx _ IH]; intros [|c b]; simpl; try lia.
  - intros _. destruct (decide (c = 0)) as [->|Hc]; [done|].
    split; [|done]. intros [= ?]. lia.
  - intros Hl. destruct (decide (c = x)) as [->|Hcx].
    + destruct (decide (x = 0)); [done|].
      rewrite IH by lia. split; [by intros -> | by intros [= ->]].
    + split; [intros [= ?]; lia|].
      destruct (decide (c = 0)); [done | by intros [= ? _]].
Qed.

Lemma nul_free_chars_date : nul_free date_token.
Proof. apply (bool_decide_unpack _). by vm_compute. Qed.

Lemma nul_free_chars_time : nul_free time_token.
Proof. apply (bool_decide_unpack _). by vm_compute. Qed.

Lemma nul_free_exit_line : nul_free exit_line.
Proof. apply (bool_decide_unpack _). by vm_compute. Qed.

(** [strftime] of a text that fits leaves that text in the array. *)
Lemma strftime_fits b max t :
  nul_free t → (length t < max)%nat → (max ≤ length b)%nat →
  let b' := (strftime b max t).2 in
  length b' = length b ∧ text_of b' = t ∧ strlen b' = Some (length t).
Proof.
  intros Ht Hl Hb. unfold strftime. rewrite decide_True by done. simpl.
  rewrite length_store. split; [done|].
  rewrite store_prefix by (rewrite length_app; simpl; lia).
  rewrite <- app_assoc. simpl.
  pose proof (text_of_app_nul t (drop (length (t ++ [0])) b) Ht) as Htx.
  split; [done|].
  set (s := t ++ 0 :: drop (length (t ++ [0])) b) in *.
  assert (strlen s = Some (length (text_of s))) as Hs.
  { apply strlen_short. rewrite Htx. unfold s.
    rewrite length_app. simpl. lia. }
  by rewrite Hs, Htx.
Qed.

End CStringFacts.

(** ** Descriptor allocation *)

Lemma lowest_free_from_ge (fuel : nat) (n : Z) (s : gset Z) :
  n ≤ lowest_free_from fuel n s.
Proof.
  revert n. induction fuel as [|fuel IH]; intros n; simpl;
    destruct (decide (n ∈ s)); try lia.
  specialize (IH (n + 1)). lia.
Qed.

Lemma lowest_free_from_fresh (fuel : nat) (n : Z) (s : gset Z) :
  (size (filter (λ m : Z, (n ≤ m)%Z) s) ≤ fuel)%nat →
  lowest_free_from fuel n s ∉ s.
Proof.
  revert n. induction fuel as [|fuel IH]; intros n Hsz; simpl;
    destruct (decide (n ∈ s)) as [Hn|Hn]; try done.
  - assert (n ∈ filter (λ m : Z, n ≤ m) s) as Hin
      by (apply elem_of_filter; split; [lia | done]).
    assert (filter (λ m : Z, n ≤ m) s = ∅) as Hemp
      by (apply leibniz_equiv, size_empty_iff; lia).
    rewrite Hemp in Hin. by apply not_elem_of_empty in Hin.
  - apply IH.
    assert (filter (λ m : Z, n + 1 ≤ m) s ⊂ filter (λ m : Z, n ≤ m) s) as Hsub.
    { split.
      - intros m [Hm ?]%elem_of_filter. apply elem_of_filter. split; [lia|done].
      - intros Hss.
        assert (n ∈ filter (λ m : Z, n + 1 ≤ m) s) as [Hbad _]%elem_of_filter.
        { apply Hss, elem_of_filter. split; [lia | done]. }
        lia. }
    apply subset_size in Hsub. lia.
Qed.

Lemma lowest_free_fresh (s : gset Z) : lowest_free s ∉ s.
Proof.
  apply lowest_free_from_fresh, subseteq_size.
  intros m [_ ?]%elem_of_filter. done.
Qed.

Lemma lowest_free_nonneg (s : gset Z) : 0 ≤ lowest_free s.
Proof. apply lowest_free_from_ge. Qed.

(** ** Registration *)

Lemma epoll_ctl_add_running (st : server) (fd mask : Z) :
  status (epoll_ctl_add st fd mask) = Running →
  epoll_ctl_add st fd mask
  = log (Sys (EpollAdd fd mask) 0)
        (with_interest (<[fd := mask]> (interest st)) st)
  ∧ is_open st (epfd st) ∧ is_open st fd ∧ fd ≠ epfd st
  ∧ interest st !! fd = None ∧ status st = Running.
Proof.
  unfold epoll_ctl_add, sys_epoll_add.
  destruct (decide _) as [(? & ? & ? & ?)|]; simpl; [|done].
  intros Hr. done.
Qed.

Lemma epoll_ctl_add_refused (st : server) (fd mask : Z) :
  ¬ is_open st fd →
  epoll_ctl_add st fd mask
  = sys_exit (log (Perror "epoll_ctl()\n")
                (log (Sys (EpollAdd fd mask) (-1)) st)) EXIT_FAILURE.
Proof.
  intros Hfd. unfold epoll_ctl_add, sys_epoll_add.
  rewrite decide_False by tauto. done.
Qed.

Lemma running_true (st : server) : running st = true ↔ status st = Running.
Proof. unfold running. apply bool_decide_eq_true. Qed.

Ltac start_step E H :=
  match type of E with
  | _ = (let '(_, _) := ?c in _) => destruct c as [? ?]; simpl in E
  | _ = (if decide ?P then _ else _) =>
      destruct (decide P); [rewrite E in H; simpl in H; discriminate H|]
  end.

(** C7, as amended: once start-up is through, the listening socket is in
    the interest list with exactly readable, writable and edge-triggered:
    EPOLLIN | EPOLLOUT | EPOLLET, as line 168 asks. *)
Theorem C7_listen_registered_in_out_et (env : boot_env) (st0 : server) :
  status (server_start env st0) = Running →
  interest (server_start env st0) !! listen_sock (server_start env st0)
  = Some (Z.lor (Z.lor EPOLLIN EPOLLOUT) EPOLLET).
Proof.
  intros Hrun. remember (server_start env st0) as st' eqn:E.
  unfold server_start in E. repeat start_step E Hrun.
  destruct (running _) eqn:Hr5.
  - rewrite E in Hrun. apply epoll_ctl_add_running in Hrun
      as (E6 & _ & _ & _ & Hnew & Hrun5).
    rewrite <- E in E6. apply epoll_ctl_add_running in Hrun5
      as (E5 & _).
    rewrite E5 in E6, Hnew. simpl in *.
    rewrite E6. simpl.
    match goal with
    | |- <[_ := _]> (<[?ls := _]> _) !! _ = _ =>
        destruct (decide (STDIN_FILENO = ls)) as [Heq|Hne]
    end.
    + rewrite Heq, lookup_insert_eq in Hnew. done.
    + rewrite lookup_insert_ne by done. apply lookup_insert_eq.
  - rewrite <- E in Hr5. apply running_true in Hrun. congruence.
Qed.

(** C7, as the sentence stands: it fails on the sample run, where the
    mask registered for the listening socket (descriptor 3) also has
    EPOLLOUT and so is not EPOLLIN | EPOLLET. *)
Lemma C7_listen_interest_has_epollout :
  status sample_started = Running
  ∧ listen_sock sample_started = 3
  ∧ interest sample_started !! 3 ≠ Some (Z.lor EPOLLIN EPOLLET)
  ∧ (∃ mask, interest sample_started !! 3 = Some mask
             ∧ Z.land mask EPOLLOUT = EPOLLOUT).
Proof.
  split; [by vm_compute|]. split; [by vm_compute|].
  split; [by vm_compute|]. exists 0x80000005. by vm_compute.
Qed.

(** ** The listening socket *)

Lemma sys_accept_ok (st : server) (sock : Z) (p : peer) (rest : list peer) :
  backlog st = p :: rest → is_open st sock →
  sys_accept st sock
  = (lowest_free (open_fds st),
     log (Sys (Accept sock) (lowest_free (open_fds st)))
       (with_cli_addr p
          (with_backlog rest
             (with_open_fds ({[lowest_free (open_fds st)]} ∪ open_fds st)
                st)))).
Proof.
  intros Hq Ho. unfold sys_accept. rewrite Hq, decide_True by done. done.
Qed.

Lemma sys_accept_failed (st : server) (sock : Z) :
  (sys_accept st sock).1 = -1 →
  sys_accept st sock = (-1, log (Sys (Accept sock) (-1)) st).
Proof.
  unfold sys_accept. destruct (backlog st) as [|p rest]; [done|].
  destruct (decide _); [|done]. simpl.
  pose proof (lowest_free_nonneg (open_fds st)). lia.
Qed.

(** Nothing pending is one way for [accept] to fail. *)
Lemma sys_accept_nothing_pending (st : server) (sock : Z) :
  backlog st = [] → (sys_accept st sock).1 = -1.
Proof. intros Hq. unfold sys_accept. by rewrite Hq. Qed.

Lemma not_open_negative (st : server) (fd : Z) : fd < 0 → ¬ is_open st fd.
Proof. unfold is_open. lia. Qed.

(** C10: when [accept] fails on an event for the listening socket (for
    instance because nothing is pending), the result is used unchecked:
    [setnonblocking(-1)] and then [epoll_ctl_add(epfd, -1, ...)] are
    called, the registration is refused, and the process exits with
    EXIT_FAILURE. *)
Theorem C10_failed_accept_is_fatal (L : locale) (st : server)
    (ev : epoll_event) (ios : list chunk_io) :
  ev_fd ev = listen_sock st →
  (sys_accept st (listen_sock st)).1 = -1 →
  let st' := handle_event L st ev ios in
  status st' = Exited EXIT_FAILURE
  ∧ same_kernel st st'
  ∧ ∃ shown,
      trace st' = trace st ++
        [Sys (Accept (listen_sock st)) (-1);
         Printf "[+] connected with %s:%d\n" shown;
         Sys (SetNonblock (-1)) (-1);
         Sys (EpollAdd (-1) conn_interest) (-1);
         Perror "epoll_ctl()\n";
         Exit EXIT_FAILURE].
Proof.
  intros Hfd Hacc. unfold handle_event, route, accept_branch.
  rewrite decide_True by done.
  rewrite (sys_accept_failed _ _ Hacc).
  unfold setnonblocking.
  rewrite decide_False by (apply not_open_negative; lia).
  rewrite epoll_ctl_add_refused by (apply not_open_negative; lia).
  simpl. split; [done|]. split; [by repeat split|].
  eexists. rewrite <- !app_assoc. simpl. reflexivity.
Qed.

Lemma C10_failed_accept_is_fatal_witness :
  ev_fd (Event EPOLLIN 3) = listen_sock sample_started
  ∧ (sys_accept sample_started (listen_sock sample_started)).1 = -1
  ∧ status (handle_event sample_locale sample_started (Event EPOLLIN 3) [])
    = Exited EXIT_FAILURE.
Proof.
  split; [by vm_compute|]. split; [by vm_compute|].
  apply (C10_failed_accept_is_fatal sample_locale sample_started
           (Event EPOLLIN 3) []); by vm_compute.
Defined.

Lemma accepts_app (t1 t2 : list action) :
  accepts (t1 ++ t2) = accepts t1 ++ accepts t2.
Proof. apply omap_app. Qed.


(** The check of lines 251-260 calls no [accept] and leaves the accept
    queue alone. *)
Lemma closing_check_queue (st : server) (ev : epoll_event) :
  backlog (closing_check st ev) = backlog st
  ∧ accepts (trace (closing_check st ev)) = accepts (trace st).
Proof.
  unfold closing_check. destruct (has_bits _ _); [|done].
  unfold sys_epoll_del, sys_close.
  repeat (destruct (decide _); simpl);
    rewrite ?accepts_app; simpl; by rewrite ?app_nil_r.
Qed.

(** Lines 186-197 call [accept] once; the connection at the head of the
    queue leaves it when the call gives a descriptor. *)
Lemma accept_branch_queue (st : server) :
  ∃ r, accepts (trace (accept_branch st)) = accepts (trace st) ++ [r]
       ∧ backlog (accept_branch st)
         = if decide (0 ≤ r) then drop 1 (backlog st) else backlog st.
Proof.
  pose proof (lowest_free_nonneg (open_fds st)) as Hnn.
  unfold accept_branch, sys_accept.
  destruct (backlog st) as [|p rest] eqn:Hq;
    [|destruct (decide (is_open st (listen_sock st)))];
    [exists (-1) | exists (lowest_free (open_fds st)) | exists (-1)];
    unfold setnonblocking, epoll_ctl_add, sys_epoll_add, sys_exit;
    repeat (destruct (decide _); simpl);
    rewrite ?accepts_app; simpl; rewrite ?app_nil_r; try done; lia.
Qed.

(** C1: the code does not loop.  Every event for the listening socket
    leads to exactly one call of [accept], whatever is pending: no call
    is made to find out that nothing is left, and at most the connection
    at the head of the accept queue leaves it.  Of two or more pending
    connections all but the first are still queued when the event has
    been handled. *)
Theorem C1_listen_event_calls_accept_once (L : locale) (st : server)
    (ev : epoll_event) (ios : list chunk_io) :
  ev_fd ev = listen_sock st →
  let st' := handle_event L st ev ios in
  ∃ r, accepts (trace st') = accepts (trace st) ++ [r]
       ∧ backlog st'
         = if decide (0 ≤ r) then drop 1 (backlog st) else backlog st.
Proof.
  intros Hfd st'. subst st'. unfold handle_event, route.
  rewrite decide_True by done.
  destruct (accept_branch_queue st) as (r & Ha & Hb). exists r.
  destruct (running _); [|done].
  destruct (closing_check_queue (accept_branch st) ev) as [-> ->].
  done.
Qed.

(** The sample run with two connections pending when the event for the
    listening socket (descriptor 3) is handled: [accept] is called once,
    it gives descriptor 5, and the second connection is still queued. *)
Lemma C1_listen_event_calls_accept_once_witness :
  ev_fd (Event EPOLLIN 3) = listen_sock sample_two_pending
  ∧ backlog sample_two_pending = [sample_peer; sample_peer]
  ∧ (∃ r, accepts (trace (handle_event sample_locale sample_two_pending
                            (Event EPOLLIN 3) []))
          = accepts (trace sample_two_pending) ++ [r]
          ∧ backlog (handle_event sample_locale sample_two_pending
                       (Event EPOLLIN 3) [])
            = if decide (0 ≤ r) then drop 1 (backlog sample_two_pending)
              else backlog sample_two_pending)
  ∧ accepts (trace (handle_event sample_locale sample_two_pending
                      (Event EPOLLIN 3) [])) = [5]
  ∧ backlog (handle_event sample_locale sample_two_pending
               (Event EPOLLIN 3) []) = [sample_peer].
Proof.
  split; [by vm_compute|]. split; [by vm_compute|]. split.
  - apply (C1_listen_event_calls_accept_once sample_locale
             sample_two_pending (Event EPOLLIN 3) []).
    by vm_compute.
  - split; by vm_compute.
Defined.

(** ** What the branches leave alone *)

Lemma same_kernel_refl (st : server) : same_kernel st st.
Proof. by repeat split. Qed.

Lemma same_kernel_trans (st1 st2 st3 : server) :
  same_kernel st1 st2 → same_kernel st2 st3 → same_kernel st1 st3.
Proof.
  unfold same_kernel. intros (?&?&?&?&?&?&?) (?&?&?&?&?&?&?).
  repeat split; congruence.
Qed.

Lemma registered_open_ext (st st' : server) :
  interest st' = interest st → open_fds st' = open_fds st →
  registered_open st → registered_open st'.
Proof.
  unfold registered_open, is_open. intros -> ->. done.
Qed.

Lemma same_kernel_registered_open (st st' : server) :
  same_kernel st st' → registered_open st → registered_open st'.
Proof. intros (?&?&?&?&?&?&?). by apply registered_open_ext. Qed.

Lemma sys_close_registered_open (st : server) (fd : Z) :
  registered_open st → registered_open (sys_close st fd).2.
Proof.
  unfold sys_close, registered_open, is_open. intros Hreg.
  destruct (decide _); simpl; [|done].
  intros fd' mask. destruct (decide (fd = epfd st)); [done|].
  intros [Hne Hin]%lookup_delete_Some.
  apply Hreg in Hin. set_unfold. intuition congruence.
Qed.

Lemma sys_epoll_del_registered_open (st : server) (fd : Z) :
  registered_open st → registered_open (sys_epoll_del st fd).2.
Proof.
  unfold sys_epoll_del, registered_open, is_open. intros Hreg.
  destruct (decide _); simpl; [|done].
  intros fd' mask [Hne Hin]%lookup_delete_Some. by apply Hreg in Hin.
Qed.

Lemma epoll_ctl_add_registered_open (st : server) (fd mask : Z) :
  registered_open st → registered_open (epoll_ctl_add st fd mask).
Proof.
  unfold epoll_ctl_add, sys_epoll_add, registered_open, is_open. intros Hreg.
  destruct (decide _) as [(_ & Hfd & _ & _)|]; simpl; [|done].
  intros fd' mask'. destruct (decide (fd = fd')) as [<-|Hne].
  - done.
  - rewrite lookup_insert_ne by done. apply Hreg.
Qed.

Lemma accept_branch_registered_open (st : server) :
  registered_open st → registered_open (accept_branch st).
Proof.
  intros Hreg. unfold accept_branch.
  destruct (sys_accept st (listen_sock st)) as [c st1] eqn:Hacc.
  assert (registered_open st1) as Hreg1.
  { unfold sys_accept in Hacc.
    destruct (backlog st); [|destruct (decide _)];
      injection Hacc as <- <-; try done.
    intros fd mask Hfd. simpl in Hfd. apply Hreg in Hfd.
    unfold is_open in *. simpl. set_unfold. tauto. }
  unfold setnonblocking.
  destruct (decide _); simpl; by apply epoll_ctl_add_registered_open.
Qed.

Section Frames.

Context (L : locale).

Lemma stdin_turn_registered_open (st : server) (io : chunk_io) :
  registered_open st → registered_open (stdin_turn st io).2.
Proof.
  intros Hreg. unfold stdin_turn, sys_read.
  destruct (decide (is_open _ _)); simpl;
    try (destruct (decide (_ ≤ 0)); simpl); try done.
  unfold stdin_chunk.
  destruct (strcmp _ _) as [[| |]|]; try destruct (strlen _); simpl;
    try done.
  match goal with
  | |- context [sys_close ?s ?fd] =>
      pose proof (sys_close_registered_open s fd Hreg) as H1;
      destruct (sys_close s fd) as [r1 s1]
  end.
  match goal with
  | |- context [sys_close ?s ?fd] =>
      pose proof (sys_close_registered_open s fd H1) as H2;
      destruct (sys_close s fd) as [r2 s2]
  end.
  done.
Qed.

Lemma stdin_loop_registered_open (st : server) (ios : list chunk_io) :
  registered_open st → registered_open (stdin_loop st ios).
Proof.
  revert st. induction ios as [|io ios IH]; intros st Hreg; simpl.
  - by apply stdin_turn_registered_open.
  - pose proof (stdin_turn_registered_open st io Hreg) as H1.
    destruct (stdin_turn st io) as [[] st1]; [by apply IH | done].
Qed.

Lemma conn_turn_frame (st : server) (fd : Z) (io : chunk_io) :
  same_kernel st (conn_turn L st fd io).2.
Proof.
  unfold conn_turn, sys_read.
  destruct (decide (is_open _ _)); simpl;
    try (destruct (decide (_ ≤ 0)); simpl); try by repeat split.
  unfold echo_chunk. simpl.
  destruct (substitute _ _ _) as [b|]; simpl; [|by repeat split].
  destruct (strlen b); simpl; [|by repeat split].
  destruct (decide (_ < 0)); simpl; by repeat split.
Qed.

Lemma conn_loop_frame (st : server) (fd : Z) (ios : list chunk_io) :
  same_kernel st (conn_loop L st fd ios).
Proof.
  revert st. induction ios as [|io ios IH]; intros st; simpl.
  - apply conn_turn_frame.
  - pose proof (conn_turn_frame st fd io) as H1.
    destruct (conn_turn L st fd io) as [[] st1]; [|done].
    eapply same_kernel_trans; [exact H1 | apply IH].
Qed.

Lemma route_registered_open (st : server) (ev : epoll_event)
    (ios : list chunk_io) :
  registered_open st → registered_open (route L st ev ios).
Proof.
  intros Hreg. unfold route.
  destruct (decide _); [by apply accept_branch_registered_open|].
  destruct (decide _); [by apply stdin_loop_registered_open|].
  destruct (has_bits _ _); [|done].
  eapply same_kernel_registered_open; [apply conn_loop_frame | done].
Qed.

Lemma closing_check_registered_open (st : server) (ev : epoll_event) :
  registered_open st → registered_open (closing_check st ev).
Proof.
  intros Hreg. unfold closing_check. destruct (has_bits _ _); [|done].
  set (st1 := log _ st).
  assert (registered_open st1) as H1 by done.
  pose proof (sys_epoll_del_registered_open st1 (ev_fd ev) H1) as H2.
  destruct (sys_epoll_del st1 (ev_fd ev)) as [r2 st2].
  pose proof (sys_close_registered_open st2 (ev_fd ev) H2) as H3.
  by destruct (sys_close st2 (ev_fd ev)) as [r3 st3].
Qed.

(** The registry invariant holds after every event. *)
Lemma handle_event_registered_open (st : server) (ev : epoll_event)
    (ios : list chunk_io) :
  registered_open st → registered_open (handle_event L st ev ios).
Proof.
  intros Hreg. unfold handle_event.
  pose proof (route_registered_open st ev ios Hreg).
  destruct (running _); [by apply closing_check_registered_open | done].
Qed.

(** C5: whichever branch handled the event, if the routing branch came
    back and the event carries EPOLLRDHUP or EPOLLHUP, the descriptor of
    the event is no longer in the interest list and is closed once the
    event has been handled. *)
Theorem C5_hangup_deregisters_and_closes (st : server) (ev : epoll_event)
    (ios : list chunk_io) :
  registered_open st →
  status (handle_event L st ev ios) = Running →
  Z.land (ev_events ev) (Z.lor EPOLLRDHUP EPOLLHUP) ≠ 0 →
  interest (handle_event L st ev ios) !! ev_fd ev = None
  ∧ ¬ is_open (handle_event L st ev ios) (ev_fd ev).
Proof.
  intros Hreg Hrun Hbits.
  pose proof (route_registered_open st ev ios Hreg) as Hreg1.
  unfold handle_event in *.
  destruct (running (route L st ev ios)) eqn:Hr; cycle 1.
  { apply running_true in Hrun. congruence. }
  unfold closing_check in *. unfold has_bits in *.
  rewrite bool_decide_eq_true_2 in * by done.
  set (st1 := log _ (route L st ev ios)) in *.
  assert (registered_open st1) as Hreg2 by done.
  clearbody st1. clear Hrun Hr Hreg1.
  unfold sys_epoll_del, sys_close.
  destruct (decide (_ ∧ is_Some _)) as [[Hep Hin]|Hno]; simpl.
  - destruct (decide (is_open _ _)) as [Ho|Hc]; simpl.
    + split.
      * destruct (decide _); [done | by rewrite lookup_delete_eq].
      * unfold is_open. simpl. set_unfold. tauto.
    + split; [by rewrite lookup_delete_eq | done].
  - destruct (decide (is_open _ _)) as [Ho|Hc]; simpl.
    + split.
      * destruct (decide _); [done | by rewrite lookup_delete_eq].
      * unfold is_open. simpl. set_unfold. tauto.
    + split; [|done].
      destruct (interest st1 !! ev_fd ev) eqn:E; [|done].
      apply Hreg2 in E. done.
Qed.

End Frames.

Lemma C5_hangup_deregisters_and_closes_witness :
  registered_open sample_connected
  ∧ Z.land (Z.lor EPOLLIN EPOLLRDHUP) (Z.lor EPOLLRDHUP EPOLLHUP) ≠ 0
  ∧ interest (handle_event sample_locale sample_connected
                (Event (Z.lor EPOLLIN EPOLLRDHUP) 5) []) !! 5 = None
  ∧ ¬ is_open (handle_event sample_locale sample_connected
                 (Event (Z.lor EPOLLIN EPOLLRDHUP) 5) []) 5.
Proof.
  split; [apply (bool_decide_unpack _); by vm_compute|].
  split; [by vm_compute|].
  apply (C5_hangup_deregisters_and_closes sample_locale sample_connected
           (Event (Z.lor EPOLLIN EPOLLRDHUP) 5) []).
  - apply (bool_decide_unpack _). by vm_compute.
  - by vm_compute.
  - by vm_compute.
Defined.

(** ** One turn of a read loop *)

Lemma writes_app (t1 t2 : list action) :
  writes (t1 ++ t2) = writes t1 ++ writes t2.
Proof. apply omap_app. Qed.

Lemma length_padded (chunk : list Z) :
  (length chunk ≤ BUF_SIZE)%nat → length (padded chunk) = BUF_SIZE.
Proof. intros. unfold padded. rewrite length_app, length_replicate. lia. Qed.

Lemma text_of_padded (chunk : list Z) : text_of (padded chunk) = text_of chunk.
Proof. apply text_of_app_zeros. Qed.

Lemma strlen_padded (chunk : list Z) :
  (length chunk < BUF_SIZE)%nat ∨ ¬ nul_free chunk →
  strlen (padded chunk) = Some (length (text_of chunk)).
Proof.
  intros Hc. rewrite <- text_of_padded.
  destruct (strlen (padded chunk)) as [k|] eqn:E.
  - by apply strlen_Some in E as [-> _].
  - apply strlen_None in E. unfold padded, nul_free in E.
    apply Forall_app in E as [E1 E2]. destruct Hc as [Hlt|Hnul]; [|done].
    destruct (BUF_SIZE - length chunk)%nat eqn:Hd; [lia|].
    simpl in E2. by inversion E2.
Qed.

Lemma read_into_zeroed (st : server) (fd : Z) (io : chunk_io) :
  buf_ok st → is_open st fd →
  sys_read (with_buf (bzero (buf st) BUF_SIZE) st) fd BUF_SIZE io
  = (Z.of_nat (length (take BUF_SIZE (data io))),
     log (Sys (Read fd BUF_SIZE)
            (Z.of_nat (length (take BUF_SIZE (data io)))))
         (with_buf (padded (take BUF_SIZE (data io))) st)).
Proof.
  intros Hb Ho. unfold sys_read. rewrite decide_True by done. simpl.
  rewrite (bzero_whole _ _ Hb), store_zeros by (rewrite length_take; lia).
  done.
Qed.

Section Turns.

Context (L : locale).

(** Lines 229-237 decide on the text of the array. *)
Lemma substitute_spec (t : Z) (b : list Z) :
  length b = BUF_SIZE →
  substitute L t b
  = Some (if decide (text_of b = date_token)
          then (strftime b BUF_SIZE (fmt_x L t)).2
          else if decide (text_of b = time_token)
               then (strftime b BUF_SIZE (fmt_X L t)).2
               else b).
Proof.
  intros Hb. unfold substitute.
  assert (length date_token < length b)%nat as Hd
    by (rewrite Hb; vm_compute; lia).
  assert (length time_token < length b)%nat as Ht
    by (rewrite Hb; vm_compute; lia).
  pose proof (strcmp_literal_zero _ b nul_free_chars_date Hd) as Hzd.
  pose proof (strcmp_literal_zero _ b nul_free_chars_time Ht) as Hzt.
  destruct (strcmp_literal_defined _ b Hd) as [rd Hrd].
  destruct (strcmp_literal_defined _ b Ht) as [rt Hrt].
  change (literal "%date%") with (date_token ++ [0]).
  change (literal "%time%") with (time_token ++ [0]).
  rewrite Hrd, Hrt in *.
  destruct (decide (text_of b = date_token)) as [Ed|Ed].
  { apply Hzd in Ed. injection Ed as ->. done. }
  assert (rd ≠ 0) as Hrd0 by (intros ->; by apply Ed, Hzd).
  destruct (decide (text_of b = time_token)) as [Et|Et].
  { apply Hzt in Et. injection Et as ->. by destruct rd. }
  assert (rt ≠ 0) as Hrt0 by (intros ->; by apply Et, Hzt).
  by destruct rd, rt.
Qed.

(** The two ways [echo_chunk] can end. *)
Lemma echo_chunk_written (st : server) (fd n : Z) (io : chunk_io)
    (b' : list Z) (k : nat) :
  substitute L (clock io) (buf st) = Some b' → strlen b' = Some k →
  let r := if decide (is_open st fd) then wr_ret io else -1 in
  echo_chunk L st fd n io
  = log (Printf " -> %s\n" [AStr b'])
      ((if decide (r < 0) then log (Perror "[!] write()") else id)
         (log (Sys (Write fd (text_of b')) r)
            (with_buf b'
               (log (Printf "[+] data (%d bytes): %s"
                       [AInt n; AStr (buf st)]) st)))).
Proof.
  intros Hs Hk. unfold echo_chunk. simpl. rewrite Hs, Hk.
  apply strlen_Some in Hk as [_ ->]. unfold sys_write. simpl.
  by destruct (decide (_ < 0)).
Qed.

Lemma echo_chunk_overrun (st : server) (fd n : Z) (io : chunk_io)
    (b' : list Z) :
  substitute L (clock io) (buf st) = Some b' → strlen b' = None →
  echo_chunk L st fd n io
  = with_status Undefined
      (with_buf b'
         (log (Printf "[+] data (%d bytes): %s"
                 [AInt n; AStr (buf st)]) st)).
Proof. intros Hs Hk. unfold echo_chunk. simpl. by rewrite Hs, Hk. Qed.

(** A turn that finds data: the chunk lands in the zeroed array and is
    handed to [echo_chunk]. *)
Lemma conn_turn_data (st : server) (fd : Z) (io : chunk_io) :
  buf_ok st → is_open st fd → data io ≠ [] →
  let chunk := take BUF_SIZE (data io) in
  let n := Z.of_nat (length chunk) in
  let st2 := echo_chunk L (log (Sys (Read fd BUF_SIZE) n)
                             (with_buf (padded chunk) st)) fd n io in
  conn_turn L st fd io = (running st2, st2).
Proof.
  intros Hb Ho Hd. unfold conn_turn.
  rewrite read_into_zeroed by done.
  rewrite decide_False; [done|].
  destruct (data io); [done|]. simpl. lia.
Qed.

Lemma stdin_turn_data (st : server) (io : chunk_io) :
  buf_ok st → is_open st STDIN_FILENO → data io ≠ [] →
  let chunk := take BUF_SIZE (data io) in
  let n := Z.of_nat (length chunk) in
  let st2 := stdin_chunk (log (Sys (Read STDIN_FILENO BUF_SIZE) n)
                            (with_buf (padded chunk) st)) n in
  stdin_turn st io = (running st2, st2).
Proof.
  intros Hb Ho Hd. unfold stdin_turn.
  rewrite read_into_zeroed by done.
  rewrite decide_False; [done|].
  destruct (data io); [done|]. simpl. lia.
Qed.

Lemma take_buf_size_length (d : list Z) :
  (length (take BUF_SIZE d) ≤ BUF_SIZE)%nat.
Proof. rewrite length_take. lia. Qed.

End Turns.

Lemma after_echo_trace (st : server) (fd : Z) (chunk b' : list Z) (r : Z) :
  trace (after_echo st fd chunk b' r)
  = trace st ++
      [Sys (Read fd BUF_SIZE) (Z.of_nat (length chunk));
       Printf "[+] data (%d bytes): %s"
         [AInt (Z.of_nat (length chunk)); AStr (padded chunk)];
       Sys (Write fd (text_of b')) r]
      ++ (if decide (r < 0) then [Perror "[!] write()"] else [])
      ++ [Printf " -> %s\n" [AStr b']].
Proof.
  unfold after_echo. destruct (decide (r < 0)); simpl;
    by rewrite <- !app_assoc.
Qed.

Lemma after_echo_frame (st : server) (fd : Z) (chunk b' : list Z) (r : Z) :
  same_kernel st (after_echo st fd chunk b' r)
  ∧ status (after_echo st fd chunk b' r) = status st
  ∧ buf (after_echo st fd chunk b' r) = b'.
Proof.
  unfold after_echo. destruct (decide (r < 0)); simpl; by repeat split.
Qed.

Lemma after_echo_writes (st : server) (fd : Z) (chunk b' : list Z) (r : Z) :
  writes (trace (after_echo st fd chunk b' r))
  = writes (trace st) ++ [(fd, text_of b')].
Proof.
  rewrite after_echo_trace, !writes_app.
  destruct (decide (r < 0)); simpl; by rewrite ?app_nil_r.
Qed.

Section Echo.

Context (L : locale).

(** A turn in which the response has a terminator inside the array. *)
Lemma conn_turn_echo (st : server) (fd : Z) (io : chunk_io)
    (b' : list Z) (k : nat) :
  buf_ok st → is_open st fd → data io ≠ [] →
  substitute L (clock io) (padded (take BUF_SIZE (data io))) = Some b' →
  strlen b' = Some k →
  conn_turn L st fd io
  = (running st, after_echo st fd (take BUF_SIZE (data io)) b' (wr_ret io)).
Proof.
  intros Hb Ho Hd Hs Hk. rewrite conn_turn_data by done.
  erewrite echo_chunk_written; [|exact Hs|exact Hk].
  destruct (decide (is_open _ fd)) as [_|Hn]; [|by destruct Hn].
  unfold after_echo, running. by destruct (decide (_ < 0)).
Qed.

(** A turn in which [strlen] runs off the array. *)
Lemma conn_turn_overrun (st : server) (fd : Z) (io : chunk_io)
    (b' : list Z) :
  buf_ok st → is_open st fd → data io ≠ [] →
  substitute L (clock io) (padded (take BUF_SIZE (data io))) = Some b' →
  strlen b' = None →
  (conn_turn L st fd io).1 = false
  ∧ status (conn_turn L st fd io).2 = Undefined
  ∧ buf (conn_turn L st fd io).2 = b'
  ∧ writes (trace (conn_turn L st fd io).2) = writes (trace st).
Proof.
  intros Hb Ho Hd Hs Hk. rewrite conn_turn_data by done.
  erewrite echo_chunk_overrun; [|exact Hs|exact Hk]. simpl.
  rewrite !writes_app. simpl. by rewrite !app_nil_r.
Qed.

(** C3: the handler looks at the text of the chunk.  When that text is
    "%date%" the response is what "%x" expands to for the current local
    time, when it is "%time%" what "%X" expands to, and in every other
    case the array is left as it was read and its text is written
    back. *)
Theorem C3_substitution_on_chunk_text (st : server) (fd : Z)
    (io : chunk_io) :
  buf_ok st → is_open st fd → data io ≠ [] →
  nul_free (fmt_x L (clock io)) →
  (length (fmt_x L (clock io)) < BUF_SIZE)%nat →
  nul_free (fmt_X L (clock io)) →
  (length (fmt_X L (clock io)) < BUF_SIZE)%nat →
  let chunk := take BUF_SIZE (data io) in
  let st' := (conn_turn L st fd io).2 in
  (text_of chunk = date_token →
     writes (trace st') = writes (trace st) ++ [(fd, fmt_x L (clock io))])
  ∧ (text_of chunk = time_token →
     writes (trace st') = writes (trace st) ++ [(fd, fmt_X L (clock io))])
  ∧ (text_of chunk ≠ date_token → text_of chunk ≠ time_token →
     buf st' = padded chunk
     ∧ ((length chunk < BUF_SIZE)%nat ∨ ¬ nul_free chunk →
        writes (trace st') = writes (trace st) ++ [(fd, text_of chunk)])).
Proof.
  intros Hb Ho Hd Hxn Hxl HXn HXl chunk st'. subst st'.
  pose proof (take_buf_size_length (data io)) as Hlen. fold chunk in Hlen.
  pose proof (length_padded chunk Hlen) as Hpad.
  pose proof (substitute_spec L (clock io) (padded chunk) Hpad) as Hsub.
  rewrite text_of_padded in Hsub.
  split; [|split].
  - intros Ht. rewrite decide_True in Hsub by done.
    destruct (strftime_fits (padded chunk) BUF_SIZE _ Hxn Hxl)
      as (_ & Htx & Hk); [lia|].
    rewrite (conn_turn_echo st fd io _ _ Hb Ho Hd Hsub Hk). cbn [snd].
    by rewrite after_echo_writes, Htx.
  - intros Ht.
    rewrite decide_False in Hsub by (rewrite Ht; by vm_compute).
    rewrite decide_True in Hsub by done.
    destruct (strftime_fits (padded chunk) BUF_SIZE _ HXn HXl)
      as (_ & Htx & Hk); [lia|].
    rewrite (conn_turn_echo st fd io _ _ Hb Ho Hd Hsub Hk). cbn [snd].
    by rewrite after_echo_writes, Htx.
  - intros Hnd Hnt. rewrite !decide_False in Hsub by done.
    destruct (strlen (padded chunk)) as [k|] eqn:Hk.
    + rewrite (conn_turn_echo st fd io _ _ Hb Ho Hd Hsub Hk). cbn [snd].
      split; [apply after_echo_frame|]. intros _.
      by rewrite after_echo_writes, text_of_padded.
    + destruct (conn_turn_overrun st fd io _ Hb Ho Hd Hsub Hk)
        as (_ & _ & Hbuf & _).
      split; [done|]. intros Hc. apply strlen_padded in Hc. congruence.
Qed.

End Echo.

Section EchoClaims.

Context (L : locale).

(** C2, as amended: for a chunk of at most 15 bytes whose text is not a
    reserved token, what is written back is the text of the chunk, the
    bytes before its first NUL; it is the whole chunk when the chunk
    holds no NUL byte. *)
Theorem C2_echo_returns_chunk_text (st : server) (fd : Z) (io : chunk_io) :
  buf_ok st → is_open st fd →
  (0 < length (data io) ≤ 15)%nat →
  text_of (data io) ≠ date_token → text_of (data io) ≠ time_token →
  let st' := (conn_turn L st fd io).2 in
  writes (trace st') = writes (trace st) ++ [(fd, text_of (data io))]
  ∧ (nul_free (data io) →
     writes (trace st') = writes (trace st) ++ [(fd, data io)]).
Proof.
  intros Hb Ho Hlen Hnd Hnt st'. subst st'.
  assert (data io ≠ []) as Hd by (destruct (data io); [simpl in *; lia|done]).
  assert (take BUF_SIZE (data io) = data io) as Htake
    by (apply take_ge; unfold BUF_SIZE; lia).
  assert (length (padded (data io)) = BUF_SIZE) as Hpad
    by (apply length_padded; unfold BUF_SIZE; lia).
  pose proof (substitute_spec L (clock io) (padded (data io)) Hpad) as Hsub.
  rewrite text_of_padded, !decide_False in Hsub by done.
  assert (strlen (padded (data io)) = Some (length (text_of (data io))))
    as Hk by (apply strlen_padded; left; unfold BUF_SIZE; lia).
  rewrite <- Htake in Hsub at 1.
  rewrite (conn_turn_echo L st fd io _ _ Hb Ho Hd Hsub Hk). cbn [snd].
  rewrite after_echo_writes, text_of_padded.
  split; [done|]. intros Hnul. by rewrite text_of_id.
Qed.

End EchoClaims.

(** ** The control channel *)

Lemma stdin_chunk_spec (st : server) (n : Z) :
  buf_ok st →
  stdin_chunk st n
  = if decide (text_of (buf st) = exit_line)
    then sys_exit
           (sys_close (sys_close st (listen_sock st)).2 (epfd st)).2
           EXIT_SUCCESS
    else match strlen (buf st) with
         | None => with_status Undefined st
         | Some _ =>
             log (Printf "[+] stdin (%d bytes): %s\n" [AInt n; AStr (buf st)])
               st
         end.
Proof.
  intros Hb. unfold stdin_chunk.
  assert (length exit_line < length (buf st))%nat as Hl
    by (rewrite Hb; vm_compute; lia).
  pose proof (strcmp_literal_zero _ (buf st) nul_free_exit_line Hl) as Hz.
  destruct (strcmp_literal_defined _ (buf st) Hl) as [r Hr].
  rewrite Hr in *.
  destruct (decide (text_of (buf st) = exit_line)) as [E|E].
  - apply Hz in E. injection E as ->.
    assert (epfd (sys_close st (listen_sock st)).2 = epfd st) as Hep
      by (unfold sys_close; by destruct (decide _)).
    destruct (sys_close st (listen_sock st)) as [r1 s1]. simpl in *.
    rewrite Hep. by destruct (sys_close s1 (epfd st)).
  - assert (r ≠ 0) as Hr0 by (intros ->; by apply E, Hz).
    by destruct r.
Qed.



(** ** The client *)

Lemma sent_app (t1 t2 : list action) : sent (t1 ++ t2) = sent t1 ++ sent t2.
Proof. apply omap_app. Qed.

Lemma fgets_take_line (n : nat) (l rest : list Z) :
  Forall (λ c, c ≠ 0 ∧ c ≠ NL) l → (length l < n)%nat →
  fgets_take n (l ++ NL :: rest) = (l ++ [NL], rest).
Proof.
  intros Hl. revert n. induction Hl as [|c l [_ Hc] _ IH]; intros n Hn.
  - destruct n; [simpl in Hn; lia|]. done.
  - destruct n; [simpl in Hn; lia|]. simpl.
    rewrite decide_False by done. rewrite IH by (simpl in Hn; lia). done.
Qed.

Lemma recv_loop_sent (cl : client) (c : Z) (replies : list (list Z)) :
  sent (c_trace (recv_loop cl c replies)) = sent (c_trace cl)
  ∧ stdin_rest (recv_loop cl c replies) = stdin_rest cl
  ∧ sock_open (recv_loop cl c replies) = sock_open cl
  ∧ c_status (recv_loop cl c replies) = c_status cl.
Proof.
  revert cl c. induction replies as [|r replies IH]; intros cl c; simpl.
  - rewrite sent_app. simpl. by rewrite app_nil_r.
  - destruct (decide _); simpl.
    { rewrite sent_app. simpl. by rewrite app_nil_r. }
    destruct (decide _); simpl.
    { rewrite !sent_app. simpl. by rewrite !app_nil_r. }
    destruct (IH (c_with_buf (bzero (store (line_buf cl) (take MAX_LINE r))
                                MAX_LINE)
                    (c_log (Printf "echo: %s\n"
                              [AStr (store (line_buf cl) (take MAX_LINE r))])
                       (c_log (Sys (Read (sockfd cl) MAX_LINE)
                                 (Z.of_nat (length (take MAX_LINE r))))
                          (c_with_buf (store (line_buf cl) (take MAX_LINE r))
                             cl))))
                (c - Z.of_nat (length (take MAX_LINE r))))
      as (-> & -> & -> & ->).
    simpl. rewrite !sent_app. simpl. by rewrite !app_nil_r.
Qed.

(** The array after [fgets] has stored a line of text and its newline. *)
Lemma fgets_line (b l rest : list Z) :
  length b = MAX_LINE → Forall (λ c, c ≠ 0 ∧ c ≠ NL) l →
  (length l ≤ 254)%nat →
  fgets b MAX_LINE (l ++ NL :: rest)
  = (l ++ NL :: 0 :: drop (length l + 2) b, rest).
Proof.
  intros Hb Hl Hlen. unfold fgets.
  rewrite fgets_take_line by (try done; unfold MAX_LINE; lia).
  destruct (l ++ [NL]) eqn:E; [by destruct l|]. rewrite <- E.
  rewrite store_prefix; rewrite !length_app; simpl.
  - rewrite <- !app_assoc. simpl.
    by replace (length l + 1 + 1)%nat with (length l + 2)%nat by lia.
  - rewrite Hb. unfold MAX_LINE. lia.
Qed.

Lemma line_nul_free (l : list Z) :
  Forall (λ c, c ≠ 0 ∧ c ≠ NL) l → nul_free l.
Proof. intros Hl. eapply Forall_impl; [exact Hl|]. simpl. tauto. Qed.

(** C8, as amended: for a line of text other than "exit" the client
    sends the characters of the line followed by one NUL byte, which
    takes the place of the newline; for "exit" it sends nothing, closes
    the socket and ends with EXIT_SUCCESS. *)
Theorem C8_client_sends_line_and_nul (cl : client) (l rest : list Z)
    (replies : list (list Z)) :
  length (line_buf cl) = MAX_LINE →
  stdin_rest cl = l ++ NL :: rest →
  Forall (λ c, c ≠ 0 ∧ c ≠ NL) l → (length l ≤ 254)%nat →
  let cl' := client_turn cl replies in
  (l ≠ chars "exit" →
     sent (c_trace cl') = sent (c_trace cl) ++ [l ++ [0]]
     ∧ stdin_rest cl' = rest
     ∧ sock_open cl' = sock_open cl
     ∧ c_status cl' = c_status cl)
  ∧ (l = chars "exit" →
     sent (c_trace cl') = sent (c_trace cl)
     ∧ sock_open cl' = false
     ∧ c_status cl' = Exited EXIT_SUCCESS).
Proof.
  intros Hb Hin Hl Hlen cl'. subst cl'. unfold client_turn. simpl.
  rewrite Hin, fgets_line by done.
  pose proof (line_nul_free l Hl) as Hnul.
  set (tl := drop (length l + 2) (line_buf cl)).
  assert (strlen (l ++ NL :: 0 :: tl) = Some (S (length l))) as ->.
  { change (l ++ NL :: 0 :: tl) with (l ++ [NL] ++ 0 :: tl).
    rewrite app_assoc.
    assert (nul_free (l ++ [NL])) as Hn
      by (apply Forall_app; split; [done | by repeat constructor]).
    pose proof (text_of_app_nul (l ++ [NL]) tl Hn) as Htx.
    rewrite (strlen_short ((l ++ [NL]) ++ 0%Z :: tl));
      rewrite Htx, !length_app; simpl.
    - f_equal. lia.
    - lia. }
  assert (<[length l := 0]> (l ++ NL :: 0 :: tl) = l ++ 0 :: 0 :: tl) as ->.
  { rewrite insert_app_r_alt by lia. by rewrite Nat.sub_diag. }
  assert (length (chars "exit") < length (l ++ 0%Z :: 0%Z :: tl))%nat
    as Hlt.
  { rewrite length_app. simpl. unfold tl. rewrite length_drop, Hb.
    unfold MAX_LINE. lia. }
  assert (nul_free (chars "exit")) as Hex
    by (apply (bool_decide_unpack _); by vm_compute).
  pose proof (strcmp_literal_zero _ _ Hex Hlt) as Hz.
  rewrite (text_of_app_nul l (0 :: tl) Hnul) in Hz.
  destruct (strcmp_literal_defined _ _ Hlt) as [r Hr].
  change (literal "exit") with (chars "exit" ++ [0]).
  rewrite Hr in *.
  assert (take (S (length l)) (l ++ 0 :: 0 :: tl) = l ++ [0]) as Htk.
  { change (l ++ 0 :: 0 :: tl) with (l ++ [0] ++ 0 :: tl).
    rewrite app_assoc. apply take_app_length'. rewrite length_app. simpl. lia. }
  split; intros Hcmd.
  - assert (r ≠ 0) as Hr0 by (intros ->; by apply Hcmd, Hz).
    destruct r; [done| |];
      match goal with
      | |- context [recv_loop ?c ?n replies] =>
          destruct (recv_loop_sent c n replies) as (-> & -> & -> & ->)
      end; simpl; rewrite !sent_app; simpl; rewrite Htk, !app_nil_r; done.
  - apply Hz in Hcmd. injection Hcmd as ->. simpl.
    rewrite !sent_app. simpl. by rewrite !app_nil_r.
Qed.

Lemma C8_client_sends_line_and_nul_witness :
  stdin_rest (sample_client (chars "hi" ++ [NL])) = chars "hi" ++ NL :: []
  ∧ sent (c_trace (client_turn (sample_client (chars "hi" ++ [NL])) []))
    = [chars "hi" ++ [0]]
  ∧ c_status (client_turn (sample_client (chars "exit" ++ [NL])) [])
    = Exited EXIT_SUCCESS.
Proof.
  split; [by vm_compute|]. split.
  - pose proof (C8_client_sends_line_and_nul
                  (sample_client (chars "hi" ++ [NL])) (chars "hi") [] [])
      as H.
    destruct H as [H _].
    + by vm_compute.
    + by vm_compute.
    + apply (bool_decide_unpack _). by vm_compute.
    + vm_compute. lia.
    + destruct H as [H _]; [by vm_compute | exact H].
  - pose proof (C8_client_sends_line_and_nul
                  (sample_client (chars "exit" ++ [NL])) (chars "exit") [] [])
      as H.
    destruct H as [_ H].
    + by vm_compute.
    + by vm_compute.
    + apply (bool_decide_unpack _). by vm_compute.
    + vm_compute. lia.
    + destruct H as (_ & _ & H); [done | exact H].
Defined.

(** C8, as the sentence stands: it fails for the line "hi".  The client
    hands three bytes to [write], the two characters and a NUL, not the
    two characters alone. *)
Lemma C8_client_adds_a_nul_byte :
  sent (c_trace (client_turn (sample_client (chars "hi" ++ [NL])) []))
  = [[104; 105; 0]]
  ∧ sent (c_trace (client_turn (sample_client (chars "hi" ++ [NL])) []))
    ≠ [chars "hi"].
Proof. split; by vm_compute. Qed.

(** ** The invariants hold from start-up on *)

Section Invariants.

Context (L : locale).

Lemma substitute_length (t : Z) (b b' : list Z) :
  substitute L t b = Some b' → length b' = length b.
Proof.
  unfold substitute, strftime.
  destruct (strcmp b _) as [[| |]|]; try done;
    try destruct (strcmp b _) as [[| |]|]; try done;
    try destruct (decide _); simpl; intros [= <-];
    by rewrite ?length_store.
Qed.

Lemma conn_turn_buf_ok (st : server) (fd : Z) (io : chunk_io) :
  buf_ok st → buf_ok (conn_turn L st fd io).2.
Proof.
  unfold buf_ok. intros Hb. unfold conn_turn, sys_read.
  destruct (decide (is_open _ _)); simpl;
    try (destruct (decide (_ ≤ 0)); simpl);
    rewrite ?length_store, ?length_bzero; try done.
  unfold echo_chunk. simpl.
  destruct (substitute _ _ _) as [b'|] eqn:Hs; simpl.
  - apply substitute_length in Hs.
    rewrite length_store, length_bzero in Hs.
    destruct (strlen b'); simpl; [|congruence].
    destruct (decide (_ < 0)); simpl; congruence.
  - by rewrite length_store, length_bzero.
Qed.

Lemma conn_loop_buf_ok (st : server) (fd : Z) (ios : list chunk_io) :
  buf_ok st → buf_ok (conn_loop L st fd ios).
Proof.
  revert st. induction ios as [|io ios IH]; intros st Hb; simpl.
  - by apply conn_turn_buf_ok.
  - pose proof (conn_turn_buf_ok st fd io Hb) as H1.
    destruct (conn_turn L st fd io) as [[] st1]; [by apply IH | done].
Qed.

Lemma sys_close_buf (st : server) (fd : Z) :
  buf (sys_close st fd).2 = buf st.
Proof. unfold sys_close. by destruct (decide _). Qed.

Lemma stdin_turn_buf_ok (st : server) (io : chunk_io) :
  buf_ok st → buf_ok (stdin_turn st io).2.
Proof.
  unfold buf_ok. intros Hb. unfold stdin_turn, sys_read.
  destruct (decide (is_open _ _)); simpl;
    try (destruct (decide (_ ≤ 0)); simpl);
    rewrite ?length_store, ?length_bzero; try done.
  unfold stdin_chunk.
  destruct (strcmp _ _) as [[| |]|]; try destruct (strlen _); simpl;
    rewrite ?length_store, ?length_bzero; try done.
  match goal with
  | |- context [sys_close ?s ?fd] =>
      pose proof (sys_close_buf s fd) as H1;
      destruct (sys_close s fd) as [r1 s1]
  end.
  match goal with
  | |- context [sys_close ?s ?fd] =>
      pose proof (sys_close_buf s fd) as H2;
      destruct (sys_close s fd) as [r2 s2]
  end.
  simpl in *. by rewrite H2, H1, length_store, length_bzero.
Qed.

Lemma stdin_loop_buf_ok (st : server) (ios : list chunk_io) :
  buf_ok st → buf_ok (stdin_loop st ios).
Proof.
  revert st. induction ios as [|io ios IH]; intros st Hb; simpl.
  - by apply stdin_turn_buf_ok.
  - pose proof (stdin_turn_buf_ok st io Hb) as H1.
    destruct (stdin_turn st io) as [[] st1]; [by apply IH | done].
Qed.

Lemma accept_branch_buf_ok (st : server) :
  buf_ok st → buf_ok (accept_branch st).
Proof.
  unfold buf_ok. intros Hb.
  unfold accept_branch, sys_accept, setnonblocking, epoll_ctl_add,
    sys_epoll_add.
  destruct (backlog st); [|destruct (decide (is_open st _))]; simpl;
    repeat (destruct (decide _); simpl); by rewrite length_store.
Qed.

(** The array keeps its size across every event. *)
Lemma handle_event_buf_ok (st : server) (ev : epoll_event)
    (ios : list chunk_io) :
  buf_ok st → buf_ok (handle_event L st ev ios).
Proof.
  intros Hb. unfold handle_event.
  assert (buf_ok (route L st ev ios)) as H1.
  { unfold route.
    destruct (decide _); [by apply accept_branch_buf_ok|].
    destruct (decide _); [by apply stdin_loop_buf_ok|].
    destruct (has_bits _ _); [by apply conn_loop_buf_ok | done]. }
  destruct (running _); [|done].
  unfold closing_check. destruct (has_bits _ _); [|done].
  unfold sys_epoll_del, sys_close, buf_ok in *.
  repeat (destruct (decide _); simpl); done.
Qed.

End Invariants.

(** ** The array is cleared before each read *)

Section ZeroFill.

Context (L : locale).

(** The first thing [echo_chunk] does is print the array as [read] left
    it. *)
Lemma echo_chunk_prints_first (st : server) (fd n : Z) (io : chunk_io) :
  ∃ t, trace (echo_chunk L st fd n io)
       = trace st
         ++ [Printf "[+] data (%d bytes): %s" [AInt n; AStr (buf st)]] ++ t.
Proof.
  unfold echo_chunk. simpl.
  destruct (substitute _ _ _) as [b|]; [destruct (strlen b) as [k|]|];
    unfold sys_write; simpl; repeat (destruct (decide _); simpl);
    eexists; rewrite <- ?app_assoc; simpl; reflexivity.
Qed.

(** C9: both read loops zero-fill the whole array immediately before
    each [read].  Whatever the array held on entry, a [read] that finds
    nothing leaves it all zero, and a [read] that finds a chunk leaves
    the chunk followed by zeros only: that is the array the echo branch
    prints and works on, and the array the stdin branch prints.  So a
    turn does the same whatever an earlier chunk, of this or of another
    descriptor, left in the array. *)
Theorem C9_buffer_zero_filled_before_read (st : server) (old : list Z)
    (fd : Z) (io : chunk_io) :
  buf_ok st → length old = BUF_SIZE →
  is_open st fd → is_open st STDIN_FILENO →
  let chunk := take BUF_SIZE (data io) in
  let n := Z.of_nat (length chunk) in
  let zeros := replicate (BUF_SIZE - length chunk) 0 in
  let ct := (conn_turn L (with_buf old st) fd io).2 in
  let it := (stdin_turn (with_buf old st) io).2 in
  (data io = [] →
     buf ct = replicate BUF_SIZE 0 ∧ buf it = replicate BUF_SIZE 0)
  ∧ (data io ≠ [] →
     (length chunk < BUF_SIZE)%nat ∨ ¬ nul_free chunk →
     (∃ t, trace ct
           = trace st
             ++ [Sys (Read fd BUF_SIZE) n;
                 Printf "[+] data (%d bytes): %s"
                   [AInt n; AStr (chunk ++ zeros)]]
             ++ t)
     ∧ (text_of chunk ≠ exit_line →
        trace it
        = trace st
          ++ [Sys (Read STDIN_FILENO BUF_SIZE) n;
              Printf "[+] stdin (%d bytes): %s\n"
                [AInt n; AStr (chunk ++ zeros)]]))
  ∧ conn_turn L (with_buf old st) fd io = conn_turn L st fd io
  ∧ stdin_turn (with_buf old st) io = stdin_turn st io.
Proof.
  intros Hb Hold Ho Hi chunk n zeros ct it.
  assert (conn_turn L (with_buf old st) fd io = conn_turn L st fd io
          ∧ stdin_turn (with_buf old st) io = stdin_turn st io) as [Ec Ei].
  { unfold conn_turn, stdin_turn. simpl.
    by rewrite (bzero_whole old _ Hold), (bzero_whole (buf st) _ Hb). }
  subst ct it. rewrite Ec, Ei.
  split; [|split; [|done]].
  - intros Hd. unfold conn_turn, stdin_turn.
    rewrite !read_into_zeroed by done. rewrite Hd. done.
  - intros Hd Hterm. rewrite conn_turn_data, stdin_turn_data by done.
    cbn [snd]. fold chunk n. split.
    + match goal with
      | |- context [echo_chunk L ?s fd n io] =>
          destruct (echo_chunk_prints_first s fd n io) as [t Ht]
      end.
      exists t. rewrite Ht. simpl. by rewrite <- app_assoc.
    + intros Ht. rewrite stdin_chunk_spec
        by (unfold buf_ok; simpl; apply length_padded, take_buf_size_length).
      simpl buf. rewrite text_of_padded, decide_False by done.
      rewrite (strlen_padded chunk Hterm). simpl.
      by rewrite <- app_assoc.
Qed.

End ZeroFill.

(** On the sample run the array holds sixteen characters of an earlier
    chunk when the chunk "hi" is read: "hi" and fourteen zeros are
    printed, and a [read] that finds nothing leaves sixteen zeros. *)
Lemma C9_buffer_zero_filled_before_read_witness :
  length (chars "0123456789abcdef") = BUF_SIZE
  ∧ buf (conn_turn sample_locale
           (with_buf (chars "0123456789abcdef") sample_connected) 5
           no_data).2 = replicate BUF_SIZE 0
  ∧ (∃ t, trace (conn_turn sample_locale
                   (with_buf (chars "0123456789abcdef") sample_connected) 5
                   (ChunkIO (chars "hi") 2 0)).2
          = trace sample_connected
            ++ [Sys (Read 5 BUF_SIZE) 2;
                Printf "[+] data (%d bytes): %s"
                  [AInt 2; AStr (chars "hi" ++ replicate 14 0)]]
            ++ t)
  ∧ trace (stdin_turn
             (with_buf (chars "0123456789abcdef") sample_connected)
             (ChunkIO (chars "hi") 2 0)).2
    = trace sample_connected
      ++ [Sys (Read STDIN_FILENO BUF_SIZE) 2;
          Printf "[+] stdin (%d bytes): %s\n"
            [AInt 2; AStr (chars "hi" ++ replicate 14 0)]].
Proof.
  split; [by vm_compute|]. split.
  - destruct (C9_buffer_zero_filled_before_read sample_locale
                sample_connected (chars "0123456789abcdef") 5 no_data)
      as [H _]; [by vm_compute..|].
    destruct H as [H _]; [by vm_compute|]. exact H.
  - assert (text_of (take BUF_SIZE (chars "hi")) ≠ exit_line) as Hne
      by by vm_compute.
    destruct (C9_buffer_zero_filled_before_read sample_locale
                sample_connected (chars "0123456789abcdef") 5
                (ChunkIO (chars "hi") 2 0))
      as (_ & H & _); [by vm_compute..|].
    destruct H as [H1 H2]; [by vm_compute | vm_compute; lia |].
    exact (conj H1 (H2 Hne)).
Defined.

(** After a start-up that got through, the state is the one the loop
    expects: both descriptors open and distinct, and the interest list
    holding open descriptors only. *)
Lemma server_start_serving (env : boot_env) (inherited : gset Z)
    (stack_buf : list Z) (stack_addr : peer) :
  length stack_buf = BUF_SIZE →
  let st := server_start env (boot inherited stack_buf stack_addr) in
  status st = Running →
  buf_ok st ∧ registered_open st ∧ is_open st (epfd st)
  ∧ is_open st (listen_sock st) ∧ listen_sock st ≠ epfd st
  ∧ backlog st = [].
Proof.
  intros Hb st Hrun. subst st.
  unfold server_start, sys_socket, sys_bind, setnonblocking, sys_listen,
    sys_epoll_create, fatal in *.
  destruct env as [[] [] [] []]; simpl in *; try done;
    repeat (destruct (decide _); simpl in *; try done).
  match type of Hrun with
  | context [running ?s] =>
      destruct (running s) eqn:Hr; [|apply running_true in Hrun; congruence]
  end.
  apply epoll_ctl_add_running in Hrun as (E2 & _ & Hstdin & _ & _ & Hrun).
  apply epoll_ctl_add_running in Hrun as (E1 & Hep & Hls & Hne & _ & _).
  rewrite E2, E1. rewrite E1 in Hstdin. clear E1 E2 Hr.
  unfold buf_ok, registered_open, is_open in *. simpl in *.
  split; [done|]. split; [|repeat split; try done; tauto].
  intros fd' mask'. rewrite !lookup_insert.
  repeat (destruct (decide _); simplify_eq); try done; tauto.
Qed.

(** ** The statements on the sample run *)

Lemma C7_listen_registered_in_out_et_witness :
  status sample_started = Running
  ∧ interest sample_started !! listen_sock sample_started
    = Some (Z.lor (Z.lor EPOLLIN EPOLLOUT) EPOLLET).
Proof.
  split; [by vm_compute|].
  apply (C7_listen_registered_in_out_et (BootEnv true true true true)
           sample_boot).
  by vm_compute.
Defined.

(** C2, as the sentence stands: it fails for the three bytes "hi" NUL,
    which is what the client of this program sends for the line "hi".
    The chunk has 3 bytes and is no reserved token, and two bytes come
    back. *)
Lemma C2_nul_terminated_chunk_comes_back_shorter :
  (length (chars "hi" ++ [0%Z]) ≤ 15)%nat
  ∧ chars "hi" ++ [0] ≠ date_token
  ∧ chars "hi" ++ [0] ≠ time_token
  ∧ writes (trace sample_connected) = []
  ∧ writes (trace (conn_turn sample_locale sample_connected 5
                     (ChunkIO (chars "hi" ++ [0]) 2 0)).2)
    = [(5, [104; 105])]
  ∧ [104; 105] ≠ chars "hi" ++ [0].
Proof.
  split; [vm_compute; lia|]. split; [by vm_compute|].
  split; [by vm_compute|]. split; [by vm_compute|].
  split; by vm_compute.
Qed.

Lemma C2_echo_returns_chunk_text_witness :
  buf_ok sample_connected ∧ is_open sample_connected 5
  ∧ writes (trace (conn_turn sample_locale sample_connected 5
                     (ChunkIO (chars "hello") 5 0)).2)
    = writes (trace sample_connected) ++ [(5, chars "hello")].
Proof.
  split; [by vm_compute|]. split; [by vm_compute|].
  pose proof (C2_echo_returns_chunk_text sample_locale sample_connected 5
                (ChunkIO (chars "hello") 5 0)) as H.
  destruct H as [_ H].
  - by vm_compute.
  - by vm_compute.
  - vm_compute. lia.
  - by vm_compute.
  - by vm_compute.
  - apply H, (bool_decide_unpack _). by vm_compute.
Defined.

Lemma C3_substitution_on_chunk_text_witness :
  (length (fmt_x sample_locale 0) < BUF_SIZE)%nat
  ∧ writes (trace (conn_turn sample_locale sample_connected 5
                     (ChunkIO (chars "%date%" ++ [0]) 8 0)).2)
    = writes (trace sample_connected) ++ [(5, chars "01/01/70")]
  ∧ writes (trace (conn_turn sample_locale sample_connected 5
                     (ChunkIO (chars "%time%" ++ [0]) 8 0)).2)
    = writes (trace sample_connected) ++ [(5, chars "00:00:00")].
Proof.
  split; [vm_compute; lia|]. split.
  - pose proof (C3_substitution_on_chunk_text sample_locale sample_connected
                  5 (ChunkIO (chars "%date%" ++ [0]) 8 0)) as H.
    destruct H as [H _].
    + by vm_compute.
    + by vm_compute.
    + by vm_compute.
    + apply (bool_decide_unpack _). by vm_compute.
    + vm_compute. lia.
    + apply (bool_decide_unpack _). by vm_compute.
    + vm_compute. lia.
    + apply H. by vm_compute.
  - pose proof (C3_substitution_on_chunk_text sample_locale sample_connected
                  5 (ChunkIO (chars "%time%" ++ [0]) 8 0)) as H.
    destruct H as (_ & H & _).
    + by vm_compute.
    + by vm_compute.
    + by vm_compute.
    + apply (bool_decide_unpack _). by vm_compute.
    + vm_compute. lia.
    + apply (bool_decide_unpack _). by vm_compute.
    + vm_compute. lia.
    + apply H. by vm_compute.
Defined.

(** * Further properties of the code *)

(** ** main: the options *)

Lemma default_last_cons {A} (d x : A) (l : list A) :
  default d (last (x :: l)) = default x (last l).
Proof. rewrite last_cons. by destruct (last l). Qed.

Section MainFacts.

Context (inet_addr : list Z → Z).

(** What the loop ends in when every option is accepted. *)
Lemma main_loop_accepted (opts : list (Z * list Z)) (s : main_state) :
  Forall (option_accepted inet_addr) opts →
  ∃ s',
    main_loop inet_addr s opts
    = (if decide (role s' = opt_s) then RunServer s' else RunClient s')
    ∧ address s' = default (address s) (last (omap (addr_of inet_addr) opts))
    ∧ port s' = default (port s) (last (omap port_of opts))
    ∧ (role s' = opt_c ↔ role s = opt_c ∨ ∃ a, (opt_c, a) ∈ opts)
    ∧ (role s' = role s ∨ role s' = opt_c).
Proof.
  intros Hall. revert s.
  induction Hall as [|[opt optarg] opts Hacc _ IH]; intros s.
  { exists s. simpl. repeat split; try tauto; eauto.
    - intros [?|[a Ha]]; [done|]. by apply elem_of_nil in Ha. }
  simpl. unfold addr_of, port_of at 1. simpl.
  destruct (decide (opt = opt_c)) as [->|Hc].
  { destruct (IH (MainState (address s) (port s) opt_c (m_trace s)))
      as (s' & E & Ha & Hp & Hr & Hr').
    exists s'. simpl in *. split; [done|]. split; [done|]. split; [done|].
    assert (role s' = opt_c) as Hrc by (apply Hr; by left).
    split; [|by right]. split; [|done].
    intros _. right. exists optarg. by left. }
  destruct (decide (opt = opt_s)) as [->|Hs].
  { destruct (IH s) as (s' & E & Ha & Hp & Hr & Hr').
    exists s'. simpl in *. split; [done|]. split; [done|]. split; [done|].
    split; [|done]. rewrite Hr. split.
    - intros [?|[a Hin]]; [by left|]. right. exists a. by right.
    - intros [?|[a Hin]]; [by left|]. right. exists a.
      apply elem_of_cons in Hin as [[= ? ?]|?]; done. }
  destruct (decide (opt = opt_a)) as [->|Ha'].
  { destruct Hacc as [?|[?|[[_ Hok]|[? _]]]]; simpl in *; try done.
    rewrite decide_False by done.
    match goal with
    | |- context [main_loop _ ?s0 opts] =>
        destruct (IH s0) as (s' & E & Ha & Hp & Hr & Hr')
    end.
    exists s'. simpl in *. split; [done|].
    rewrite default_last_cons. split; [done|]. split; [done|].
    split; [|done]. rewrite Hr. split.
    - intros [?|[a Hin]]; [by left|]. right. exists a. by right.
    - intros [?|[a Hin]]; [by left|]. right. exists a.
      apply elem_of_cons in Hin as [[= ? ?]|?]; done. }
  destruct (decide (opt = opt_p)) as [->|Hp'].
  { destruct Hacc as [?|[?|[[? _]|[_ [Hrange Hnz]]]]]; simpl in *; try done.
    rewrite decide_True by done. rewrite decide_False by done.
    match goal with
    | |- context [main_loop _ ?s0 opts] =>
        destruct (IH s0) as (s' & E & Ha & Hp & Hr & Hr')
    end.
    exists s'. simpl in *. split; [done|]. split; [done|].
    rewrite default_last_cons. split; [done|].
    split; [|done]. rewrite Hr. split.
    - intros [?|[a Hin]]; [by left|]. right. exists a. by right.
    - intros [?|[a Hin]]; [by left|]. right. exists a.
      apply elem_of_cons in Hin as [[= ? ?]|?]; done. }
  destruct Hacc as [?|[?|[[? _]|[? _]]]]; simpl in *; done.
Qed.

(** X1: when [getopt] hands over only options that are accepted, [main]
    goes on to run the server or the client, as the client exactly when
    some option is -c (a later -s does not undo it), with the address of
    the last -a (all interfaces without one) and the port of the last -p
    (9090 without one), a port between 1 and 65535. *)
Theorem X1_main_runs_with_last_options (opts : list (Z * list Z)) :
  Forall (option_accepted inet_addr) opts →
  ∃ s',
    (main inet_addr opts = RunServer s' ∨ main inet_addr opts = RunClient s')
    ∧ (main inet_addr opts = RunClient s' ↔ ∃ a, (opt_c, a) ∈ opts)
    ∧ address s' = wanted_address inet_addr opts
    ∧ port s' = wanted_port opts
    ∧ 1 ≤ port s' ≤ 65535.
Proof.
  intros Hall.
  destruct (main_loop_accepted opts main_start Hall)
    as (s' & E & Ha & Hp & Hr & Hr').
  exists s'. unfold main. rewrite E.
  assert (role s' = opt_s ∨ role s' = opt_c) as Hrole
    by (destruct Hr'; [left | right]; done).
  split; [destruct (decide _); tauto|]. split.
  - destruct (decide (role s' = opt_s)) as [Hs|Hs].
    + split; [done|]. intros Hc. exfalso.
      assert (role s' = opt_c) as Hcc by (apply Hr; by right).
      rewrite Hcc in Hs. done.
    + split; [|done]. intros _.
      destruct Hrole as [?|Hc]; [done|].
      apply Hr in Hc as [Hc|Hc]; [done | exact Hc].
  - split; [exact Ha|]. split; [exact Hp|].
    rewrite Hp. clear -Hall.
    assert (1 ≤ port main_start ≤ 65535) as Hd by (by vm_compute).
    revert Hd. generalize (port main_start).
    induction Hall as [|o opts Hacc _ IH]; intros d Hd; [done|].
    simpl. destruct (port_of o) as [v|] eqn:E; [|by apply IH].
    rewrite !default_last_cons. apply IH.
    unfold port_of in E.
    destruct (decide (o.1 = opt_p)) as [Hp|Hp]; [|done]. injection E as <-.
    destruct Hacc as [Hx|[Hx|[[Hx _]|[_ [_ Hnz]]]]];
      try (rewrite Hp in Hx; done).
    pose proof (Z.mod_pos_bound (atoi o.2) 65536). lia.
Qed.

(** The loop stops at the first option that is not accepted. *)
Lemma main_loop_rejected (pre post : list (Z * list Z)) (bad : Z * list Z)
    (s : main_state) :
  Forall (option_accepted inet_addr) pre → ¬ option_accepted inet_addr bad →
  (bad.1 = opt_p → INT_MIN ≤ atoi bad.2 ≤ INT_MAX) →
  (∃ s', main_loop inet_addr s (pre ++ bad :: post)
         = Returned EXIT_FAILURE s')
  ∧ main_loop inet_addr s (pre ++ bad :: post)
    = main_loop inet_addr s (pre ++ [bad]).
Proof.
  intros Hall Hbad Hrange. revert s.
  induction Hall as [|[opt optarg] pre Hacc _ IH]; intros s.
  - destruct bad as [opt optarg]. simpl in *.
    unfold option_accepted in Hbad. simpl in Hbad.
    destruct (decide (opt = opt_c)); [tauto|].
    destruct (decide (opt = opt_s)); [tauto|].
    destruct (decide (opt = opt_a)) as [->|].
    { destruct (decide (_ = INADDR_NONE)); [by split; eauto|].
      exfalso. apply Hbad. right. right. by left. }
    destruct (decide (opt = opt_p)) as [->|]; [|by split; eauto].
    destruct (decide (INT_MIN ≤ _ ≤ _)); [|tauto].
    destruct (decide (_ = 0)); [by split; eauto|].
    exfalso. apply Hbad. right. right. right. split; [done|].
    split; [tauto | done].
  - simpl.
    destruct (decide (opt = opt_c)) as [->|]; [apply IH|].
    destruct (decide (opt = opt_s)) as [->|]; [apply IH|].
    destruct (decide (opt = opt_a)) as [->|].
    { destruct Hacc as [?|[?|[[_ Hok]|[? _]]]]; simpl in *; try done.
      destruct (decide (_ = INADDR_NONE)); [done|]. apply IH. }
    destruct (decide (opt = opt_p)) as [->|].
    { destruct Hacc as [?|[?|[[? _]|[_ [Hr Hnz]]]]]; simpl in *; try done.
      destruct (decide (INT_MIN ≤ _ ≤ _)); [|done].
      destruct (decide (_ = 0)); [done|]. apply IH. }
    destruct Hacc as [?|[?|[[? _]|[? _]]]]; simpl in *; done.
Qed.

(** X2: the first option that is not accepted (an unknown option, an
    address [inet_addr] cannot convert, a port that comes out as 0) makes
    [main] return EXIT_FAILURE; neither the server nor the client is run
    and the options after it are never looked at. *)
Theorem X2_main_stops_at_first_rejected_option
    (pre post : list (Z * list Z)) (bad : Z * list Z) :
  Forall (option_accepted inet_addr) pre → ¬ option_accepted inet_addr bad →
  (bad.1 = opt_p → INT_MIN ≤ atoi bad.2 ≤ INT_MAX) →
  (∃ s', main inet_addr (pre ++ bad :: post) = Returned EXIT_FAILURE s')
  ∧ main inet_addr (pre ++ bad :: post) = main inet_addr (pre ++ [bad]).
Proof. apply main_loop_rejected. Qed.

End MainFacts.

Lemma X1_main_runs_with_last_options_witness :
  Forall (option_accepted sample_inet_addr)
    [(opt_c, []); (opt_p, chars "80"); (opt_s, []); (opt_p, chars "8080")]
  ∧ ∃ s',
      main sample_inet_addr
        [(opt_c, []); (opt_p, chars "80"); (opt_s, []); (opt_p, chars "8080")]
      = RunClient s' ∧ port s' = 8080.
Proof.
  split; [apply (bool_decide_unpack _); by vm_compute|].
  destruct (X1_main_runs_with_last_options sample_inet_addr
              [(opt_c, []); (opt_p, chars "80"); (opt_s, []);
               (opt_p, chars "8080")])
    as (s' & _ & Hc & _ & Hp & _).
  - apply (bool_decide_unpack _). by vm_compute.
  - exists s'. split; [|exact Hp].
    apply Hc. exists []. apply (bool_decide_unpack _). by vm_compute.
Defined.

Lemma X2_main_stops_at_first_rejected_option_witness :
  ¬ option_accepted sample_inet_addr (opt_p, chars "65536")
  ∧ main sample_inet_addr
      ([(opt_c, [])] ++ (opt_p, chars "65536") :: [(opt_p, chars "80")])
    = main sample_inet_addr ([(opt_c, [])] ++ [(opt_p, chars "65536")]).
Proof.
  split; [apply (bool_decide_unpack _); by vm_compute|].
  apply (X2_main_stops_at_first_rejected_option sample_inet_addr
           [(opt_c, [])] [(opt_p, chars "80")] (opt_p, chars "65536")).
  - apply (bool_decide_unpack _). by vm_compute.
  - apply (bool_decide_unpack _). by vm_compute.
  - intros _. vm_compute. split; discriminate.
Defined.

(** ** atoi on the port argument *)

Lemma atoi_digits_stop (ds r : list Z) (c acc : Z) :
  Forall (λ d, isdigit d = true) ds → isdigit c = false →
  atoi_digits acc (ds ++ c :: r) = atoi_digits acc ds.
Proof.
  intros Hds Hc. revert acc.
  induction Hds as [|d ds Hd _ IH]; intros acc; simpl.
  - by rewrite Hc.
  - rewrite Hd. apply IH.
Qed.

Lemma atoi_digits_nonneg (s : list Z) (acc : Z) :
  0 ≤ acc → 0 ≤ atoi_digits acc s.
Proof.
  revert acc. induction s as [|c s IH]; intros acc Hacc; simpl; [done|].
  destruct (isdigit c) eqn:E; [|done].
  apply IH. unfold isdigit in E. apply bool_decide_eq_true in E. lia.
Qed.

Section PortArgument.

Context (inet_addr : list Z → Z).

(** X3: [atoi] stops at the first character that is not a digit, so a
    port argument that begins with digits is taken for those digits and
    whatever follows them is ignored: [main] does with "-p 8080x" exactly
    what it does with "-p 8080". *)
Theorem X3_port_argument_trailing_text_ignored (ds r : list Z) (c : Z)
    (s : main_state) (rest : list (Z * list Z)) :
  ds ≠ [] → Forall (λ d, isdigit d = true) ds → isdigit c = false →
  atoi (ds ++ c :: r) = atoi ds
  ∧ main_loop inet_addr s ((opt_p, ds ++ c :: r) :: rest)
    = main_loop inet_addr s ((opt_p, ds) :: rest).
Proof.
  intros Hne Hds Hc.
  assert (atoi (ds ++ c :: r) = atoi ds) as Hat.
  { destruct Hds as [|d ds Hd Hds]; [done|].
    unfold atoi. simpl.
    assert (isspace d = false ∧ d ≠ 45 ∧ d ≠ 43) as (Hsp & Hm & Hp).
    { unfold isdigit, isspace in *. apply bool_decide_eq_true in Hd.
      rewrite !bool_decide_eq_false_2 by lia. split; [done | lia]. }
    rewrite Hsp, !decide_False by done.
    apply (atoi_digits_stop (d :: ds)); [by constructor | done]. }
  split; [done|]. simpl. by rewrite Hat.
Qed.

(** X4: a port argument with no digit where the number should start
    (empty, or text such as "http") makes [atoi] answer 0, and [main]
    returns EXIT_FAILURE. *)
Theorem X4_port_argument_without_digits_rejected (optarg : list Z)
    (s : main_state) (rest : list (Z * list Z)) :
  match skip_space optarg with
  | c :: _ => isdigit c = false ∧ c ≠ 45 ∧ c ≠ 43
  | [] => True
  end →
  atoi optarg = 0
  ∧ ∃ s', main_loop inet_addr s ((opt_p, optarg) :: rest)
          = Returned EXIT_FAILURE s'.
Proof.
  intros Hhd.
  assert (atoi optarg = 0) as Hat.
  { unfold atoi. destruct (skip_space optarg) as [|c t]; [done|].
    destruct Hhd as (Hd & Hm & Hp).
    rewrite !decide_False by done. simpl. by rewrite Hd. }
  split; [done|]. simpl. rewrite Hat. eauto.
Qed.

End PortArgument.

Lemma X3_port_argument_trailing_text_ignored_witness :
  atoi (chars "8080" ++ 120 :: []) = 8080.
Proof.
  destruct (X3_port_argument_trailing_text_ignored sample_inet_addr
              (chars "8080") [] 120 main_start []) as [H _].
  - done.
  - apply (bool_decide_unpack _). by vm_compute.
  - by vm_compute.
  - exact H.
Defined.

Lemma X4_port_argument_without_digits_rejected_witness :
  atoi (chars "http") = 0.
Proof.
  destruct (X4_port_argument_without_digits_rejected sample_inet_addr
              (chars "http") main_start []) as [H _].
  - vm_compute. repeat split; discriminate.
  - exact H.
Defined.

(** ** set_sockaddr and the byte order of the port *)

Lemma swap16_involutive (x : Z) : 0 ≤ x < 65536 → swap16 (swap16 x) = x.
Proof.
  intros Hx. unfold swap16.
  pose proof (Z.div_mod x 256). pose proof (Z.mod_pos_bound x 256).
  assert (0 ≤ x / 256 < 256) as Hq
    by (split; [apply Z.div_pos; lia | apply Z.div_lt_upper_bound; lia]).
  rewrite (Z.mod_small (x / 256) 256) by lia.
  replace ((x mod 256 * 256 + x / 256) mod 256) with (x / 256); cycle 1.
  { rewrite Z.add_comm, Z.mod_add by lia. by rewrite Z.mod_small. }
  replace ((x mod 256 * 256 + x / 256) / 256) with (x mod 256); cycle 1.
  { rewrite Z.add_comm, Z.div_add by lia.
    rewrite (Z.div_small (x / 256)) by lia. lia. }
  rewrite (Z.mod_small (x mod 256)) by lia. lia.
Qed.

Lemma bytes16_htons (little_endian : bool) (p : Z) :
  0 ≤ p < 65536 →
  bytes16 little_endian (htons little_endian p) = [p / 256; p mod 256].
Proof.
  intros Hp.
  pose proof (Z.mod_pos_bound p 256).
  assert (0 ≤ p / 256 < 256) as Hq
    by (split; [apply Z.div_pos; lia | apply Z.div_lt_upper_bound; lia]).
  destruct little_endian; simpl; unfold swap16.
  - rewrite (Z.mod_small (p / 256)) by lia.
    rewrite (Z.add_comm _ (p / 256)), Z.mod_add, Z.div_add by lia.
    rewrite (Z.mod_small (p / 256)), (Z.div_small (p / 256)) by lia.
    rewrite (Z.mod_small (p mod 256)) by lia. reflexivity.
  - rewrite (Z.mod_small p 65536) by lia.
    rewrite (Z.mod_small (p / 256) 256) by lia. reflexivity.
Qed.

(** X5: [set_sockaddr] stores the port in network byte order whatever
    the byte order of the host: in memory the high byte comes first.
    [ntohs] gets the port back, the family is AF_INET, the address is the
    global [address], and the padding is zero. *)
Theorem X5_set_sockaddr_port_in_network_order (little_endian : bool)
    (s : main_state) :
  0 ≤ port s < 65536 →
  let a := set_sockaddr little_endian s in
  bytes16 little_endian (sa_port a) = [port s / 256; port s mod 256]
  ∧ ntohs little_endian (sa_port a) = port s
  ∧ sa_family a = AF_INET ∧ sa_addr a = address s
  ∧ Forall (λ z, z = 0) (sa_zero a).
Proof.
  intros Hp a. subst a. simpl.
  pose proof (Z.mod_pos_bound (port s) 256).
  assert (0 ≤ port s / 256 < 256) as Hq
    by (split; [apply Z.div_pos; lia | apply Z.div_lt_upper_bound; lia]).
  split; [|split; [|split; [done|split; [done|]]]].
  - destruct little_endian; simpl; unfold swap16.
    + rewrite (Z.mod_small (port s / 256)) by lia.
      rewrite (Z.add_comm _ (port s / 256)), Z.mod_add, Z.div_add by lia.
      rewrite (Z.mod_small (port s / 256)), (Z.div_small (port s / 256))
        by lia.
      rewrite (Z.mod_small (port s mod 256)) by lia.
      reflexivity.
    + rewrite (Z.mod_small (port s) 65536) by lia.
      rewrite (Z.mod_small (port s / 256) 256) by lia. reflexivity.
  - unfold ntohs, htons. destruct little_endian.
    + by apply swap16_involutive.
    + by rewrite !(Z.mod_small (port s) 65536) by lia.
  - by repeat constructor.
Qed.

Lemma X5_set_sockaddr_port_in_network_order_witness :
  bytes16 true (sa_port (set_sockaddr true main_start)) = [35; 130].
Proof.
  destruct (X5_set_sockaddr_port_in_network_order true main_start)
    as [H _]; [by vm_compute | exact H].
Defined.

(** ** server_run: start-up *)

Lemma lowest_free_zero (s : gset Z) : 0 ∉ s → lowest_free s = 0.
Proof.
  intros H0. unfold lowest_free.
  destruct (size s); simpl; by rewrite decide_False.
Qed.

Lemma epoll_ctl_add_status (st : server) (fd mask : Z) :
  status (epoll_ctl_add st fd mask) = status st
  ∨ status (epoll_ctl_add st fd mask) = Exited EXIT_FAILURE.
Proof.
  unfold epoll_ctl_add, sys_epoll_add.
  destruct (decide _); simpl; [by left | by right].
Qed.

(** Start-up ends with the loop about to run or with exit(EXIT_FAILURE). *)
Lemma server_start_status (env : boot_env) (st0 : server) :
  status st0 = Running →
  status (server_start env st0) = Running
  ∨ status (server_start env st0) = Exited EXIT_FAILURE.
Proof.
  intros H0.
  unfold server_start, sys_socket, sys_bind, setnonblocking, sys_listen,
    sys_epoll_create, fatal.
  destruct env as [[] [] [] []]; simpl;
    repeat (destruct (decide _); simpl); try (by right).
  all: match goal with
       | |- context [running ?s] =>
           pose proof (epoll_ctl_add_status
                         (with_epfd (epfd s) s) (listen_sock s)
                         (Z.lor (Z.lor EPOLLIN EPOLLOUT) EPOLLET)) as _;
           destruct (running s) eqn:Hr
       end.
  all: match goal with
       | |- context [epoll_ctl_add ?s STDIN_FILENO ?m] =>
           destruct (epoll_ctl_add_status s STDIN_FILENO m) as [E|E];
           [rewrite E; left; by apply running_true | by right]
       | |- context [epoll_ctl_add ?s ?fd ?m] =>
           destruct (epoll_ctl_add_status s fd m) as [E|E];
           [rewrite E; by left | by right]
       end.
Qed.

(** The state a start-up that got through leaves behind. *)
Lemma server_start_running (env : boot_env) (inherited : gset Z)
    (stack_buf : list Z) (stack_addr : peer) :
  let st := server_start env (boot inherited stack_buf stack_addr) in
  status st = Running →
  listen_sock st = lowest_free inherited
  ∧ epfd st = lowest_free ({[lowest_free inherited]} ∪ inherited)
  ∧ open_fds st = {[epfd st]} ∪ ({[listen_sock st]} ∪ inherited)
  ∧ nonblock st = {[listen_sock st]}
  ∧ interest st
    = <[STDIN_FILENO := Z.lor EPOLLIN EPOLLET]>
        {[listen_sock st := Z.lor (Z.lor EPOLLIN EPOLLOUT) EPOLLET]}
  ∧ listen_sock st ≠ STDIN_FILENO
  ∧ is_open st STDIN_FILENO.
Proof.
  intros st Hrun. subst st.
  unfold server_start, sys_socket, sys_bind, setnonblocking, sys_listen,
    sys_epoll_create, fatal in *.
  destruct env as [[] [] [] []]; simpl in *; try done;
    repeat (destruct (decide _); simpl in *; try done).
  match type of Hrun with
  | context [running ?s] =>
      destruct (running s) eqn:Hr; [|apply running_true in Hrun; congruence]
  end.
  apply epoll_ctl_add_running in Hrun as (E2 & _ & Hstdin & _ & Hnone & Hrun).
  apply epoll_ctl_add_running in Hrun as (E1 & Hep & Hls & Hne & _ & _).
  rewrite E2, E1. rewrite E1 in Hstdin, Hnone. clear E1 E2 Hr.
  unfold is_open in *. simpl in *.
  repeat split; try done; try tauto.
  - apply leibniz_equiv. set_unfold. tauto.
  - intros Heq. rewrite Heq, lookup_insert_eq in Hnone. done.
Qed.

(** X6: when start-up gets through, the interest list holds exactly the
    listening socket and stdin, stdin with EPOLLIN | EPOLLET; the
    listening socket is the only descriptor put in non-blocking mode
    (stdin is left as it was inherited); and the two new descriptors are
    the lowest free ones. *)
Theorem X6_start_registers_listener_and_stdin (env : boot_env)
    (inherited : gset Z) (stack_buf : list Z) (stack_addr : peer) :
  let st := server_start env (boot inherited stack_buf stack_addr) in
  status st = Running →
  interest st
  = <[STDIN_FILENO := Z.lor EPOLLIN EPOLLET]>
      {[listen_sock st := Z.lor (Z.lor EPOLLIN EPOLLOUT) EPOLLET]}
  ∧ nonblock st = {[listen_sock st]}
  ∧ (STDIN_FILENO ∉ nonblock st)
  ∧ listen_sock st = lowest_free inherited
  ∧ epfd st = lowest_free ({[listen_sock st]} ∪ inherited)
  ∧ open_fds st = {[epfd st]} ∪ ({[listen_sock st]} ∪ inherited).
Proof.
  intros st Hrun.
  destruct (server_start_running env inherited stack_buf stack_addr Hrun)
    as (Hls & Hep & Ho & Hnb & Hi & Hne & _).
  fold st in Hls, Hep, Ho, Hnb, Hi, Hne.
  repeat split; try done.
  - rewrite Hnb. set_unfold. congruence.
  - by rewrite Hls.
Qed.

(** X7: a server started with descriptor 0 closed never reaches its
    loop.  [socket] then hands out descriptor 0 for the listening socket,
    and registering STDIN_FILENO, the same number, a second time is
    refused: every start-up ends in exit(EXIT_FAILURE). *)
Theorem X7_start_without_stdin_is_fatal (env : boot_env)
    (inherited : gset Z) (stack_buf : list Z) (stack_addr : peer) :
  STDIN_FILENO ∉ inherited →
  status (server_start env (boot inherited stack_buf stack_addr))
  = Exited EXIT_FAILURE.
Proof.
  intros H0.
  destruct (server_start_status env (boot inherited stack_buf stack_addr))
    as [Hrun|Hex]; [done| |done].
  destruct (server_start_running env inherited stack_buf stack_addr Hrun)
    as (Hls & _ & _ & _ & _ & Hne & _).
  rewrite Hls, lowest_free_zero in Hne by done. done.
Qed.

Lemma X6_start_registers_listener_and_stdin_witness :
  status sample_started = Running
  ∧ interest sample_started !! STDIN_FILENO = Some (Z.lor EPOLLIN EPOLLET)
  ∧ nonblock sample_started = {[3]}.
Proof.
  split; [by vm_compute|].
  destruct (X6_start_registers_listener_and_stdin
              (BootEnv true true true true) {[0; 1; 2]}
              (replicate BUF_SIZE 7) (Peer (0, 0, 0, 0) 0))
    as (Hi & Hnb & _); [by vm_compute|].
  split.
  - unfold sample_started, sample_boot. rewrite Hi. apply lookup_insert_eq.
  - exact Hnb.
Defined.

Lemma X7_start_without_stdin_is_fatal_witness :
  (STDIN_FILENO ∉ ({[1; 2]} : gset Z))
  ∧ status (server_start (BootEnv true true true true)
              (boot {[1; 2]} (replicate BUF_SIZE 0) (Peer (0, 0, 0, 0) 0)))
    = Exited EXIT_FAILURE.
Proof.
  split; [by vm_compute|].
  apply (X7_start_without_stdin_is_fatal (BootEnv true true true true)
           {[1; 2]} (replicate BUF_SIZE 0) (Peer (0, 0, 0, 0) 0)).
  by vm_compute.
Defined.

(** ** server_run: who is written to *)

Lemma writes_only_to_refl (fd : Z) (st : server) : writes_only_to fd st st.
Proof. exists []. by rewrite app_nil_r. Qed.

Lemma writes_only_to_same (fd : Z) (st st' : server) :
  writes (trace st') = writes (trace st) → writes_only_to fd st st'.
Proof. intros E. exists []. by rewrite app_nil_r. Qed.

Lemma writes_only_to_trans (fd : Z) (st1 st2 st3 : server) :
  writes_only_to fd st1 st2 → writes_only_to fd st2 st3 →
  writes_only_to fd st1 st3.
Proof.
  intros (ws1 & E1 & H1) (ws2 & E2 & H2). exists (ws1 ++ ws2).
  rewrite E2, E1, app_assoc. split; [done | by apply Forall_app].
Qed.

Lemma accept_branch_writes (st : server) :
  writes (trace (accept_branch st)) = writes (trace st).
Proof.
  unfold accept_branch, sys_accept, setnonblocking, epoll_ctl_add,
    sys_epoll_add, sys_exit.
  destruct (backlog st); [|destruct (decide (is_open st _))]; simpl;
    repeat (destruct (decide _); simpl);
    rewrite ?writes_app; simpl; by rewrite ?app_nil_r.
Qed.

Lemma sys_close_writes (st : server) (fd : Z) :
  writes (trace (sys_close st fd).2) = writes (trace st).
Proof.
  unfold sys_close. destruct (decide _); simpl;
    rewrite writes_app; simpl; by rewrite app_nil_r.
Qed.

Lemma sys_epoll_del_writes (st : server) (fd : Z) :
  writes (trace (sys_epoll_del st fd).2) = writes (trace st).
Proof.
  unfold sys_epoll_del. destruct (decide _); simpl;
    rewrite writes_app; simpl; by rewrite app_nil_r.
Qed.

Lemma closing_check_writes (st : server) (ev : epoll_event) :
  writes (trace (closing_check st ev)) = writes (trace st).
Proof.
  unfold closing_check. destruct (has_bits _ _); [|done].
  set (st1 := log _ st).
  pose proof (sys_epoll_del_writes st1 (ev_fd ev)) as H1.
  destruct (sys_epoll_del st1 (ev_fd ev)) as [r2 st2].
  pose proof (sys_close_writes st2 (ev_fd ev)) as H2.
  destruct (sys_close st2 (ev_fd ev)) as [r3 st3]. simpl in *.
  rewrite H2, H1. unfold st1. simpl.
  rewrite writes_app. simpl. by rewrite app_nil_r.
Qed.

Lemma stdin_turn_writes (st : server) (io : chunk_io) :
  writes (trace (stdin_turn st io).2) = writes (trace st).
Proof.
  unfold stdin_turn, sys_read.
  destruct (decide (is_open _ _)); simpl;
    try (destruct (decide (_ ≤ 0)); simpl);
    rewrite ?writes_app; simpl; rewrite ?app_nil_r; try done.
  unfold stdin_chunk.
  destruct (strcmp _ _) as [[| |]|]; try destruct (strlen _); simpl;
    rewrite ?writes_app; simpl; rewrite ?app_nil_r; try done.
  match goal with
  | |- context [sys_close ?s ?fd] =>
      pose proof (sys_close_writes s fd) as H1;
      destruct (sys_close s fd) as [r1 s1]
  end.
  match goal with
  | |- context [sys_close ?s ?fd] =>
      pose proof (sys_close_writes s fd) as H2;
      destruct (sys_close s fd) as [r2 s2]
  end.
  simpl in *. rewrite writes_app, H2, H1, writes_app. simpl.
  by rewrite !app_nil_r.
Qed.

Lemma stdin_loop_writes (st : server) (ios : list chunk_io) :
  writes (trace (stdin_loop st ios)) = writes (trace st).
Proof.
  revert st. induction ios as [|io ios IH]; intros st; simpl.
  - apply stdin_turn_writes.
  - pose proof (stdin_turn_writes st io) as H1.
    destruct (stdin_turn st io) as [[] st1]; simpl in *; [|done].
    by rewrite IH.
Qed.

Section WritesTo.

Context (L : locale).

Lemma conn_turn_writes_to (st : server) (fd : Z) (io : chunk_io) :
  writes_only_to fd st (conn_turn L st fd io).2.
Proof.
  unfold conn_turn, sys_read.
  destruct (decide (is_open _ _)); simpl;
    try (destruct (decide (_ ≤ 0)); simpl);
    try (apply writes_only_to_same; simpl;
         rewrite ?writes_app; simpl; by rewrite ?app_nil_r).
  unfold echo_chunk. simpl.
  destruct (substitute _ _ _) as [b'|]; simpl;
    [|apply writes_only_to_same; simpl;
      rewrite ?writes_app; simpl; by rewrite ?app_nil_r].
  destruct (strlen b') as [k|]; simpl;
    [|apply writes_only_to_same; simpl;
      rewrite ?writes_app; simpl; by rewrite ?app_nil_r].
  exists [(fd, take k b')].
  split; [|by repeat constructor].
  destruct (decide (_ < 0)); simpl; rewrite ?writes_app; simpl;
    by rewrite ?app_nil_r.
Qed.

Lemma conn_loop_writes_to (st : server) (fd : Z) (ios : list chunk_io) :
  writes_only_to fd st (conn_loop L st fd ios).
Proof.
  revert st. induction ios as [|io ios IH]; intros st; simpl.
  - apply conn_turn_writes_to.
  - pose proof (conn_turn_writes_to st fd io) as H1.
    destruct (conn_turn L st fd io) as [[] st1]; simpl in *; [|done].
    eapply writes_only_to_trans; [exact H1 | apply IH].
Qed.

(** X9: while one event is handled, every [write] goes to the descriptor
    of that event: what is read from one connection is never written to
    another, and the events of the listening socket and of stdin write
    to no descriptor at all. *)
Theorem X9_writes_go_to_the_event_descriptor (st : server)
    (ev : epoll_event) (ios : list chunk_io) :
  writes_only_to (ev_fd ev) st (handle_event L st ev ios)
  ∧ (ev_fd ev = listen_sock st ∨ ev_fd ev = STDIN_FILENO →
     writes (trace (handle_event L st ev ios)) = writes (trace st)).
Proof.
  unfold handle_event.
  assert (writes_only_to (ev_fd ev) st (route L st ev ios)
          ∧ (ev_fd ev = listen_sock st ∨ ev_fd ev = STDIN_FILENO →
             writes (trace (route L st ev ios)) = writes (trace st)))
    as [H1 H2].
  { unfold route.
    destruct (decide _).
    { split; [apply writes_only_to_same|intros _]; apply accept_branch_writes. }
    destruct (decide _).
    { split; [apply writes_only_to_same|intros _]; apply stdin_loop_writes. }
    split; [|tauto].
    destruct (has_bits _ _); [apply conn_loop_writes_to|].
    apply writes_only_to_same. simpl. rewrite writes_app. simpl.
    by rewrite app_nil_r. }
  destruct (running _); [|done].
  rewrite closing_check_writes. split; [|done].
  destruct H1 as (ws & E & Hws). exists ws.
  by rewrite closing_check_writes.
Qed.

(** A turn on a plain chunk. *)
Lemma conn_turn_plain (st : server) (fd : Z) (io : chunk_io) :
  buf_ok st → is_open st fd → plain_chunk io →
  conn_turn L st fd io
  = (running st,
     after_echo st fd (data io) (padded (data io)) (wr_ret io)).
Proof.
  intros Hb Ho (Hlen & Hnd & Hnt).
  assert (data io ≠ []) as Hd by (destruct (data io); [simpl in *; lia|done]).
  assert (take BUF_SIZE (data io) = data io) as Htake
    by (apply take_ge; unfold BUF_SIZE; lia).
  assert (length (padded (data io)) = BUF_SIZE) as Hpad
    by (apply length_padded; unfold BUF_SIZE; lia).
  pose proof (substitute_spec L (clock io) (padded (data io)) Hpad) as Hsub.
  rewrite text_of_padded, !decide_False in Hsub by done.
  assert (strlen (padded (data io)) = Some (length (text_of (data io))))
    as Hk by (apply strlen_padded; left; unfold BUF_SIZE; lia).
  rewrite <- Htake in Hsub at 1.
  rewrite (conn_turn_echo L st fd io _ _ Hb Ho Hd Hsub Hk).
  by rewrite Htake.
Qed.


(** X11: a [read] that fills all 16 bytes of [buf] with bytes other than
    NUL leaves no terminator in the array.  On a connection
    [strlen(buf)] at line 240 then reads past the end of the array, on
    stdin the [%s] of [printf] at line 213 does: in both loops the
    behaviour of the program is undefined. *)
Theorem X11_full_chunk_overruns_the_buffer (st : server) (fd : Z)
    (io : chunk_io) :
  buf_ok st →
  (BUF_SIZE ≤ length (data io))%nat → nul_free (take BUF_SIZE (data io)) →
  (is_open st fd → status (conn_turn L st fd io).2 = Undefined)
  ∧ (is_open st STDIN_FILENO → status (stdin_turn st io).2 = Undefined).
Proof.
  intros Hb Hlen Hnul.
  set (chunk := take BUF_SIZE (data io)) in *.
  assert (length chunk = BUF_SIZE) as Hc
    by (unfold chunk; rewrite length_take; lia).
  assert (padded chunk = chunk) as Hpad.
  { unfold padded. rewrite Hc, Nat.sub_diag. apply app_nil_r. }
  assert (data io ≠ []) as Hd
    by (destruct (data io); [unfold BUF_SIZE in Hlen; simpl in *; lia|done]).
  assert (strlen chunk = None) as Hk by by apply strlen_None.
  split; intros Ho.
  - pose proof (substitute_spec L (clock io) (padded chunk)) as Hsub.
    rewrite Hpad in Hsub. specialize (Hsub Hc).
    rewrite (text_of_id chunk Hnul) in Hsub.
    rewrite !decide_False in Hsub; cycle 1.
    { intros E. rewrite E in Hc. by vm_compute in Hc. }
    { intros E. rewrite E in Hc. by vm_compute in Hc. }
    rewrite <- Hpad in Hsub at 1.
    by destruct (conn_turn_overrun L st fd io chunk Hb Ho Hd Hsub Hk)
      as (_ & H2 & _).
  - rewrite stdin_turn_data by done. cbn [snd]. fold chunk.
    rewrite stdin_chunk_spec
      by (unfold buf_ok; simpl; apply length_padded; lia).
    simpl buf. rewrite Hpad, (text_of_id chunk Hnul), Hk.
    rewrite decide_False; [done|].
    intros E. rewrite E in Hc. by vm_compute in Hc.
Qed.

End WritesTo.


Lemma X11_full_chunk_overruns_the_buffer_witness :
  nul_free (take BUF_SIZE (chars "0123456789abcdef"))
  ∧ status (conn_turn sample_locale sample_connected 5
              (ChunkIO (chars "0123456789abcdef") 16 0)).2 = Undefined
  ∧ status (stdin_turn sample_connected
              (ChunkIO (chars "0123456789abcdef") 16 0)).2 = Undefined.
Proof.
  split; [apply (bool_decide_unpack _); by vm_compute|].
  assert (is_open sample_connected 5) as Ho1 by by vm_compute.
  assert (is_open sample_connected STDIN_FILENO) as Ho2 by by vm_compute.
  destruct (X11_full_chunk_overruns_the_buffer sample_locale
              sample_connected 5 (ChunkIO (chars "0123456789abcdef") 16 0))
    as [H1 H2].
  - by vm_compute.
  - vm_compute. lia.
  - apply (bool_decide_unpack _). by vm_compute.
  - exact (conj (H1 Ho1) (H2 Ho2)).
Defined.

(** ** server_run: a write that returns an error *)

Section WriteError.

Context (L : locale).

(** X21: when the [write] of a response returns an error (a negative
    value, as for EAGAIN on a full socket buffer), lines 240-244 report it
    with [perror] and that is all: there is one [write] call for the
    chunk, the descriptor stays open and stays in the interest list, the
    process goes on, and the loop goes on to the next [read].  A [write]
    that does not return because it raises SIGPIPE is not covered. *)
Theorem X21_write_error_returned_is_only_reported (st : server) (fd : Z)
    (io : chunk_io) (rest : list chunk_io) (b' : list Z) (k : nat) :
  status st = Running → buf_ok st → is_open st fd → data io ≠ [] →
  substitute L (clock io) (padded (take BUF_SIZE (data io))) = Some b' →
  strlen b' = Some k →
  wr_ret io < 0 →
  let chunk := take BUF_SIZE (data io) in
  let st' := (conn_turn L st fd io).2 in
  status st' = Running
  ∧ is_open st' fd
  ∧ interest st' = interest st
  ∧ trace st' = trace st ++
      [Sys (Read fd BUF_SIZE) (Z.of_nat (length chunk));
       Printf "[+] data (%d bytes): %s"
         [AInt (Z.of_nat (length chunk)); AStr (padded chunk)];
       Sys (Write fd (take k b')) (wr_ret io);
       Perror "[!] write()";
       Printf " -> %s\n" [AStr b']]
  ∧ conn_loop L st fd (io :: rest) = conn_loop L st' fd rest.
Proof.
  intros Hrun Hb Ho Hd Hsub Hk Hw chunk st'. subst st'. simpl.
  rewrite (conn_turn_echo L st fd io _ _ Hb Ho Hd Hsub Hk). cbn [snd].
  destruct (after_echo_frame st fd chunk b' (wr_ret io))
    as ((_ & _ & _ & Hopen & _ & Hint & _) & Hst & _).
  fold chunk. rewrite after_echo_trace, decide_True by done.
  apply strlen_Some in Hk as [_ ->].
  repeat split; try done.
  - congruence.
  - by destruct Ho.
  - rewrite Hopen. by destruct Ho.
  - apply running_true in Hrun. by rewrite Hrun.
Qed.

End WriteError.

Lemma X21_write_error_returned_is_only_reported_witness :
  wr_ret (ChunkIO (chars "hello") (-1) 0) < 0
  ∧ status (conn_turn sample_locale sample_connected 5
              (ChunkIO (chars "hello") (-1) 0)).2 = Running
  ∧ is_open (conn_turn sample_locale sample_connected 5
               (ChunkIO (chars "hello") (-1) 0)).2 5
  ∧ interest (conn_turn sample_locale sample_connected 5
                (ChunkIO (chars "hello") (-1) 0)).2
    = interest sample_connected.
Proof.
  split; [by vm_compute|].
  pose proof (X21_write_error_returned_is_only_reported sample_locale
                sample_connected 5 (ChunkIO (chars "hello") (-1) 0) []
                (padded (chars "hello")) 5) as H.
  destruct H as (H1 & H2 & H3 & _).
  - by vm_compute.
  - by vm_compute.
  - by vm_compute.
  - by vm_compute.
  - by vm_compute.
  - by vm_compute.
  - by vm_compute.
  - exact (conj H1 (conj H2 H3)).
Defined.

(** ** server_run: connections come and go *)

(** The state after an event for the listening socket that found a
    connection pending and carried no hangup bit. *)
Lemma listen_event_state (L : locale) (st : server) (ev : epoll_event)
    (ios : list chunk_io) (p : peer) (rest : list peer) :
  status st = Running → registered_open st →
  is_open st (epfd st) → is_open st (listen_sock st) →
  ev_fd ev = listen_sock st → backlog st = p :: rest →
  has_bits (ev_events ev) (Z.lor EPOLLRDHUP EPOLLHUP) = false →
  let st' := handle_event L st ev ios in
  let c := lowest_free (open_fds st) in
  status st' = Running
  ∧ epfd st' = epfd st ∧ listen_sock st' = listen_sock st
  ∧ open_fds st' = {[c]} ∪ open_fds st
  ∧ interest st' = <[c := conn_interest]> (interest st)
  ∧ interest st !! c = None
  ∧ backlog st' = rest
  ∧ length (buf st') = length (buf st).
Proof.
  intros Hrun Hreg Hep Hls Hfd Hq Hbits.
  pose proof (lowest_free_fresh (open_fds st)) as Hfresh.
  pose proof (lowest_free_nonneg (open_fds st)) as Hnn.
  set (c := lowest_free (open_fds st)) in *.
  assert (c ≠ epfd st) as Hce by (destruct Hep; congruence).
  assert (interest st !! c = None) as Hnone.
  { destruct (interest st !! c) eqn:E; [|done].
    apply Hreg in E as [_ ?]. done. }
  unfold handle_event, route, accept_branch.
  rewrite decide_True by done.
  rewrite (sys_accept_ok _ _ _ _ Hq Hls). fold c.
  unfold setnonblocking.
  rewrite decide_True
    by (unfold is_open; simpl; split; [done | set_unfold; by left]).
  unfold epoll_ctl_add, sys_epoll_add.
  rewrite decide_True; cycle 1.
  { unfold is_open in *. simpl. repeat split; try tauto; set_unfold; tauto. }
  simpl.
  match goal with |- context [closing_check ?s ev] => set (st1 := s) end.
  assert (running st1 = true) as -> by by apply running_true.
  unfold closing_check. rewrite Hbits. unfold st1. simpl.
  rewrite length_store. done.
Qed.

Section Churn.

Context (L : locale).

(** What routing does to the kernel side for an event that belongs to
    neither the listening socket nor stdin. *)
Lemma route_connection_frame (st : server) (ev : epoll_event)
    (ios : list chunk_io) :
  ev_fd ev ≠ listen_sock st → ev_fd ev ≠ STDIN_FILENO →
  same_kernel st (route L st ev ios).
Proof.
  intros Hl Hs. unfold route. rewrite !decide_False by done.
  destruct (has_bits _ _); [apply conn_loop_frame | by repeat split].
Qed.


(** X13: a connection that is accepted and later reported closed leaves
    nothing behind.  After the event for the listening socket and then an
    event with a peer-closed or hangup bit for the new descriptor, the
    descriptor table and the interest list are what they were before the
    connection was accepted. *)
Theorem X13_accept_then_hangup_restores_tables (st : server)
    (ev1 ev2 : epoll_event) (ios1 ios2 : list chunk_io) (p : peer)
    (rest : list peer) :
  status st = Running → registered_open st →
  is_open st (epfd st) → is_open st (listen_sock st) →
  is_open st STDIN_FILENO →
  ev_fd ev1 = listen_sock st → backlog st = p :: rest →
  has_bits (ev_events ev1) (Z.lor EPOLLRDHUP EPOLLHUP) = false →
  ev_fd ev2 = lowest_free (open_fds st) →
  has_bits (ev_events ev2) (Z.lor EPOLLRDHUP EPOLLHUP) = true →
  let st2 := handle_event L (handle_event L st ev1 ios1) ev2 ios2 in
  status st2 = Running →
  open_fds st2 = open_fds st ∧ interest st2 = interest st
  ∧ backlog st2 = rest.
Proof.
  intros Hrun Hreg Hep Hls Hin Hfd1 Hq Hb1 Hfd2 Hb2 st2 Hrun2. subst st2.
  destruct (listen_event_state L st ev1 ios1 p rest
              Hrun Hreg Hep Hls Hfd1 Hq Hb1)
    as (Hr1 & Hep1 & Hls1 & Ho1 & Hi1 & Hnone & Hq1 & _).
  pose proof (lowest_free_fresh (open_fds st)) as Hfresh.
  set (c := lowest_free (open_fds st)) in *.
  set (st1 := handle_event L st ev1 ios1) in *.
  assert (c ≠ listen_sock st) as Hcl by (destruct Hls; congruence).
  assert (c ≠ STDIN_FILENO) as Hcs by (destruct Hin; congruence).
  assert (c ≠ epfd st) as Hce by (destruct Hep; congruence).
  unfold handle_event in *.
  destruct (route_connection_frame st1 ev2 ios2)
    as (Hep2 & _ & _ & Ho2 & _ & Hi2 & Hq2).
  { rewrite Hfd2. fold st1 in Hls1. by rewrite Hls1. }
  { by rewrite Hfd2. }
  destruct (running (route L st1 ev2 ios2)) eqn:Hr2; cycle 1.
  { apply running_true in Hrun2. congruence. }
  unfold closing_check in *. rewrite Hb2 in *.
  set (st3 := log _ (route L st1 ev2 ios2)) in *.
  assert (interest st3 = <[c := conn_interest]> (interest st)) as Hi3
    by (unfold st3; simpl; by rewrite Hi2, Hi1).
  assert (open_fds st3 = {[c]} ∪ open_fds st) as Ho3
    by (unfold st3; simpl; by rewrite Ho2, Ho1).
  assert (epfd st3 = epfd st) as Hep3
    by (unfold st3; simpl; by rewrite Hep2, Hep1).
  assert (backlog st3 = rest) as Hq3
    by (unfold st3; simpl; by rewrite Hq2, Hq1).
  clearbody st3. clear Hrun2.
  unfold sys_epoll_del, sys_close, is_open. rewrite Hfd2.
  repeat (destruct (decide _); simpl);
    rewrite ?Hi3, ?Ho3, ?Hq3, ?Hep3 in *;
    repeat split; try done;
    try (apply leibniz_equiv; set_unfold; intros x; split;
         [tauto | intros ?; split; [tauto | congruence]]);
    rewrite ?delete_insert_eq, ?delete_delete_eq;
    try (by apply delete_id);
    try (by rewrite delete_id by done);
    try tauto.
  all: try (exfalso; pose proof (lowest_free_nonneg (open_fds st));
            fold c in H; set_unfold; tauto).
Qed.

End Churn.


Lemma X13_accept_then_hangup_restores_tables_witness :
  backlog (arrive sample_peer sample_started) = [sample_peer]
  ∧ open_fds (handle_event sample_locale
                (handle_event sample_locale
                   (arrive sample_peer sample_started) (Event EPOLLIN 3) [])
                (Event (Z.lor EPOLLIN EPOLLRDHUP) 5) [])
    = open_fds (arrive sample_peer sample_started).
Proof.
  split; [by vm_compute|].
  destruct (X13_accept_then_hangup_restores_tables sample_locale
              (arrive sample_peer sample_started)
              (Event EPOLLIN 3) (Event (Z.lor EPOLLIN EPOLLRDHUP) 5) [] []
              sample_peer []) as [H _].
  - by vm_compute.
  - apply (bool_decide_unpack _). by vm_compute.
  - by vm_compute.
  - by vm_compute.
  - by vm_compute.
  - by vm_compute.
  - by vm_compute.
  - by vm_compute.
  - by vm_compute.
  - by vm_compute.
  - by vm_compute.
  - exact H.
Defined.

(** ** server_run: stdin and registration *)

Lemma stdin_turn_other (st : server) (io : chunk_io) :
  buf_ok st → is_open st STDIN_FILENO → other_input io →
  stdin_turn st io
  = (running st,
     log (Printf "[+] stdin (%d bytes): %s\n"
            [AInt (Z.of_nat (length (take BUF_SIZE (data io))));
             AStr (padded (take BUF_SIZE (data io)))])
       (log (Sys (Read STDIN_FILENO BUF_SIZE)
               (Z.of_nat (length (take BUF_SIZE (data io)))))
          (with_buf (padded (take BUF_SIZE (data io))) st))).
Proof.
  intros Hb Ho (Hd & Ht & Hterm). rewrite stdin_turn_data by done.
  rewrite stdin_chunk_spec
    by (unfold buf_ok; simpl; apply length_padded, take_buf_size_length).
  simpl buf. rewrite text_of_padded, decide_False by done.
  rewrite strlen_padded; [done|].
  destruct Hterm as [Hlt|Hnul]; [left | by right].
  rewrite length_take. lia.
Qed.

(** X14: input on stdin that is not the exit command and leaves a
    terminator in [buf] changes nothing but the log and [buf].  Each such
    chunk adds its [read] and one [printf] to the trace; after any number
    of them the read loop goes on, whatever comes next, from a state with
    the same descriptors, interest list and accept queue, still
    running. *)
Theorem X14_other_stdin_input_changes_nothing (st : server)
    (ios : list chunk_io) :
  status st = Running → buf_ok st → is_open st STDIN_FILENO →
  Forall other_input ios →
  ∃ st',
    (∀ rest, stdin_loop st (ios ++ rest) = stdin_loop st' rest)
    ∧ same_kernel st st' ∧ status st' = Running ∧ buf_ok st'
    ∧ trace st' = trace st ++ (ios ≫= stdin_logged).
Proof.
  intros Hrun Hb Ho Hall. revert st Hrun Hb Ho.
  induction Hall as [|io ios Hio _ IH]; intros st Hrun Hb Ho.
  - exists st. simpl. rewrite app_nil_r.
    split; [done|]. split; [apply same_kernel_refl|]. done.
  - pose proof (stdin_turn_other st io Hb Ho Hio) as Hturn.
    apply running_true in Hrun as Hr. rewrite Hr in Hturn.
    match type of Hturn with _ = (_, ?s) => set (st1 := s) in * end.
    destruct (IH st1) as (st' & Hloop & Hk & Hs & Hb' & Ht).
    + done.
    + unfold buf_ok, st1. simpl. apply length_padded, take_buf_size_length.
    + done.
    + exists st'. split; [|split; [|split; [done|split; [done|]]]].
      * intros rest. simpl. rewrite Hturn. apply Hloop.
      * eapply same_kernel_trans; [|exact Hk]. by repeat split.
      * rewrite Ht. unfold st1. simpl. by rewrite <- !app_assoc.
Qed.

Lemma X14_other_stdin_input_changes_nothing_witness :
  Forall other_input [ChunkIO (chars "quit" ++ [NL]) 0 0;
                      ChunkIO (chars "exit") 0 0]
  ∧ ∃ st',
      (∀ rest, stdin_loop sample_connected
                 ([ChunkIO (chars "quit" ++ [NL]) 0 0;
                   ChunkIO (chars "exit") 0 0] ++ rest)
               = stdin_loop st' rest)
      ∧ same_kernel sample_connected st' ∧ status st' = Running.
Proof.
  split; [apply (bool_decide_unpack _); by vm_compute|].
  destruct (X14_other_stdin_input_changes_nothing sample_connected
              [ChunkIO (chars "quit" ++ [NL]) 0 0;
               ChunkIO (chars "exit") 0 0])
    as (st' & H1 & H2 & H3 & _).
  - by vm_compute.
  - by vm_compute.
  - by vm_compute.
  - apply (bool_decide_unpack _). by vm_compute.
  - exists st'. exact (conj H1 (conj H2 H3)).
Defined.

(** X15: [epoll_ctl_add] registers a descriptor once.  After a call that
    went through, a second call for the same descriptor is refused by the
    kernel and ends the process with EXIT_FAILURE, whatever the mask; the
    interest list is not changed by it. *)
Theorem X15_registering_twice_is_fatal (st : server) (fd m1 m2 : Z) :
  status (epoll_ctl_add st fd m1) = Running →
  status (epoll_ctl_add (epoll_ctl_add st fd m1) fd m2)
  = Exited EXIT_FAILURE
  ∧ interest (epoll_ctl_add (epoll_ctl_add st fd m1) fd m2)
    = <[fd := m1]> (interest st).
Proof.
  intros Hrun.
  apply epoll_ctl_add_running in Hrun as (E & _).
  rewrite E. unfold epoll_ctl_add at 1 2, sys_epoll_add. simpl.
  rewrite decide_False; [done|].
  intros (_ & _ & _ & Hnone). by rewrite lookup_insert_eq in Hnone.
Qed.

Lemma X15_registering_twice_is_fatal_witness :
  status (epoll_ctl_add sample_connected 1 EPOLLIN) = Running
  ∧ status (epoll_ctl_add (epoll_ctl_add sample_connected 1 EPOLLIN) 1
              EPOLLOUT) = Exited EXIT_FAILURE.
Proof.
  split; [by vm_compute|].
  apply (X15_registering_twice_is_fatal sample_connected 1 EPOLLIN EPOLLOUT).
  by vm_compute.
Defined.

(** ** server_run: the address of the peer *)

Lemma decimal_octet_text (n : Z) :
  0 ≤ n ≤ 255 →
  nul_free (decimal_octet n) ∧ (1 ≤ length (decimal_octet n) ≤ 3)%nat.
Proof.
  intros Hn. unfold decimal_octet, digit, nul_free.
  assert (0 ≤ n / 10) by (apply Z.div_pos; lia).
  assert (0 ≤ n / 100) by (apply Z.div_pos; lia).
  pose proof (Z.mod_pos_bound n 10). pose proof (Z.mod_pos_bound (n / 10) 10).
  repeat (destruct (decide _); simpl);
    (split; [repeat constructor; lia | lia]).
Qed.

(** X16: the text of an IPv4 address has between 7 and 15 characters, so
    with its terminator it fits the 16 bytes of [buf]: after the branch
    for the listening socket has accepted a connection, [buf] holds the
    dotted decimal text of the peer's address, terminated inside the
    array. *)
Theorem X16_peer_address_fits_the_buffer (st : server) (p : peer)
    (rest : list peer) :
  buf_ok st → is_open st (listen_sock st) → backlog st = p :: rest →
  octets_ok (sin_addr p) →
  (7 ≤ length (inet_ntop (sin_addr p)) ≤ 15)%nat
  ∧ text_of (buf (accept_branch st)) = inet_ntop (sin_addr p)
  ∧ strlen (buf (accept_branch st)) = Some (length (inet_ntop (sin_addr p))).
Proof.
  intros Hb Ho Hq Hoct.
  destruct (sin_addr p) as [[[a1 a2] a3] a4] eqn:Ha.
  destruct Hoct as (H1 & H2 & H3 & H4).
  destruct (decimal_octet_text a1 H1) as [N1 L1].
  destruct (decimal_octet_text a2 H2) as [N2 L2].
  destruct (decimal_octet_text a3 H3) as [N3 L3].
  destruct (decimal_octet_text a4 H4) as [N4 L4].
  assert (nul_free (inet_ntop (a1, a2, a3, a4))) as Hnul.
  { unfold inet_ntop, nul_free in *.
    repeat (apply Forall_app; split); try done; by repeat constructor. }
  assert (7 ≤ length (inet_ntop (a1, a2, a3, a4)) ≤ 15)%nat as Hlen.
  { unfold inet_ntop. rewrite !length_app. simpl. lia. }
  split; [done|].
  assert (buf (accept_branch st)
          = store (buf st) (inet_ntop (a1, a2, a3, a4) ++ [0])) as ->.
  { unfold accept_branch. rewrite (sys_accept_ok _ _ _ _ Hq Ho). simpl.
    rewrite Ha.
    unfold setnonblocking, epoll_ctl_add, sys_epoll_add, sys_exit.
    repeat (destruct (decide _); simpl); done. }
  rewrite store_prefix; cycle 1.
  { rewrite length_app, Hb. cbn [length]. unfold BUF_SIZE. lia. }
  rewrite <- app_assoc. cbn [app].
  pose proof (text_of_app_nul (inet_ntop (a1, a2, a3, a4))
                (drop (length (inet_ntop (a1, a2, a3, a4) ++ [0])) (buf st))
                Hnul) as Htx.
  split; [done|].
  match goal with |- strlen ?s = _ => set (arr := s) in * end.
  assert (strlen arr = Some (length (text_of arr))) as Hs.
  { apply strlen_short. rewrite Htx. unfold arr.
    rewrite length_app. cbn [length]. lia. }
  by rewrite Hs, Htx.
Qed.

Lemma X16_peer_address_fits_the_buffer_witness :
  octets_ok (sin_addr sample_peer)
  ∧ text_of (buf (accept_branch (arrive sample_peer sample_started)))
    = chars "127.0.0.1".
Proof.
  split; [by vm_compute|].
  destruct (X16_peer_address_fits_the_buffer
              (arrive sample_peer sample_started) sample_peer [])
    as (_ & H & _).
  - by vm_compute.
  - by vm_compute.
  - by vm_compute.
  - vm_compute. repeat split; discriminate.
  - exact H.
Defined.

(** ** client_run: lines without a newline, and the end of input *)

Lemma fgets_take_prefix (n : nat) (t more : list Z) :
  Forall (λ c, c ≠ 0 ∧ c ≠ NL) t → (length t ≤ n)%nat →
  more = [] ∨ length t = n →
  fgets_take n (t ++ more) = (t, more).
Proof.
  intros Ht. revert n. induction Ht as [|c t [_ Hc] _ IH]; intros n Hn Hm.
  - simpl. destruct Hm as [->|Hm]; [by destruct n|].
    simpl in Hm. subst n. done.
  - destruct n; [simpl in Hn; lia|]. simpl.
    rewrite decide_False by done.
    rewrite IH; [done | simpl in Hn; lia |].
    destruct Hm as [?|Hm]; [by left | right; simpl in Hm; lia].
Qed.


Lemma fgets_text (b input t rest : list Z) (n : nat) :
  fgets_take (n - 1) input = (t, rest) → t ≠ [] →
  fgets b n input = (store b (t ++ [0]), rest).
Proof. intros Hf Hne. unfold fgets. rewrite Hf. by destruct t. Qed.

(** A turn in which [fgets] has read the text [t]. *)
Lemma client_turn_text (cl : client) (replies : list (list Z))
    (t rest : list Z) :
  length (line_buf cl) = MAX_LINE →
  fgets_take (MAX_LINE - 1) (stdin_rest cl) = (t, rest) →
  t ≠ [] → nul_free t → (length t ≤ 255)%nat →
  take (length t - 1) t ≠ chars "exit" →
  ∃ cl1,
    client_turn cl replies
    = recv_loop cl1 (Z.of_nat (length t - 1)) replies
    ∧ line_buf cl1 = replicate MAX_LINE 0
    ∧ stdin_rest cl1 = rest
    ∧ c_status cl1 = c_status cl
    ∧ sock_open cl1 = sock_open cl
    ∧ sent (c_trace cl1)
      = sent (c_trace cl) ++ [take (length t - 1) t ++ [0]].
Proof.
  intros Hb Hf Hne Hnul Hlen Hcmd.
  destruct (length t) as [|c] eqn:Hc; [by destruct t|].
  replace (S c - 1)%nat with c in * by lia.
  assert (t = take c t ++ drop c t) as Hsplit by by rewrite take_drop.
  destruct (drop c t) as [|x tl'] eqn:Hdrop.
  { rewrite app_nil_r in Hsplit. apply (f_equal length) in Hsplit.
    rewrite length_take in Hsplit. lia. }
  assert (tl' = []) as ->.
  { apply (f_equal length) in Hsplit.
    rewrite length_app, length_take in Hsplit. simpl in Hsplit.
    destruct tl'; [done | simpl in Hsplit; lia]. }
  set (body := take c t) in *.
  assert (length body = c) as Hbody by (unfold body; rewrite length_take; lia).
  assert (nul_free body) as Hnb.
  { rewrite Hsplit in Hnul. by apply Forall_app in Hnul as [? _]. }
  set (tail := drop (S c + 1) (line_buf cl)).
  unfold client_turn. simpl. rewrite (fgets_text _ _ t rest) by done.
  assert (store (line_buf cl) (t ++ [0]) = t ++ 0 :: tail) as Hst.
  { rewrite store_prefix.
    - rewrite <- app_assoc. simpl. unfold tail.
      rewrite length_app, Hc. done.
    - rewrite length_app, Hc, Hb. simpl. unfold MAX_LINE. lia. }
  rewrite Hst.
  assert (strlen (t ++ 0 :: tail) = Some (S c)) as Hsl.
  { pose proof (text_of_app_nul t tail Hnul) as Htx.
    rewrite (strlen_short (t ++ 0%Z :: tail));
      rewrite Htx, ?length_app, Hc; [done | simpl; lia]. }
  rewrite Hsl.
  assert (<[c := 0]> (t ++ 0 :: tail) = body ++ 0 :: 0 :: tail)
    as Hins.
  { rewrite Hsplit at 1. rewrite <- app_assoc. simpl.
    rewrite insert_app_r_alt by lia. rewrite Hbody, Nat.sub_diag. done. }
  rewrite Hins.
  assert (length (chars "exit") < length (body ++ 0%Z :: 0%Z :: tail))%nat
    as Hlt.
  { rewrite length_app. simpl. unfold tail. rewrite length_drop, Hb.
    unfold MAX_LINE. lia. }
  assert (nul_free (chars "exit")) as Hex
    by (apply (bool_decide_unpack _); by vm_compute).
  pose proof (strcmp_literal_zero _ _ Hex Hlt) as Hz.
  rewrite (text_of_app_nul body (0 :: tail) Hnb) in Hz.
  destruct (strcmp_literal_defined _ _ Hlt) as [r Hr].
  change (literal "exit") with (chars "exit" ++ [0]).
  rewrite Hr.
  assert (r ≠ 0) as Hr0 by (intros ->; by apply Hcmd, Hz).
  assert (take (S c) (body ++ 0 :: 0 :: tail) = body ++ [0]) as Htk.
  { change (body ++ 0 :: 0 :: tail) with (body ++ [0] ++ 0 :: tail).
    rewrite app_assoc. apply take_app_length'.
    rewrite length_app. simpl. lia. }
  rewrite Htk.
  assert (bzero (body ++ 0 :: 0 :: tail) MAX_LINE = replicate MAX_LINE 0)
    as Hbz.
  { apply bzero_whole. rewrite length_app. simpl. unfold tail.
    rewrite length_drop, Hb. unfold MAX_LINE. lia. }
  rewrite Hbz.
  destruct r; [done| |]; eexists; (split; [reflexivity|]); simpl;
    rewrite !sent_app; simpl; by rewrite !app_nil_r.
Qed.

(** X17: [client_run] takes the last character [fgets] has stored for
    the newline and overwrites it.  When the text read does not end in a
    newline (the last line of the input has none, or the line is longer
    than the 255 characters [fgets] takes at a time), that character is a
    character of the line: it is read from stdin and never sent. *)
Theorem X17_line_without_newline_loses_last_character (cl : client)
    (replies : list (list Z)) (t more : list Z) :
  length (line_buf cl) = MAX_LINE →
  stdin_rest cl = t ++ more →
  t ≠ [] → Forall (λ c, c ≠ 0 ∧ c ≠ NL) t → (length t ≤ 255)%nat →
  more = [] ∨ length t = 255%nat →
  take (length t - 1) t ≠ chars "exit" →
  sent (c_trace (client_turn cl replies))
  = sent (c_trace cl) ++ [take (length t - 1) t ++ [0]]
  ∧ stdin_rest (client_turn cl replies) = more.
Proof.
  intros Hb Hin Hne Ht Hlen Hmore Hcmd.
  destruct (client_turn_text cl replies t more) as (cl1 & E & _ & Hr & _ & _ & Hs);
    try done.
  - rewrite Hin. apply fgets_take_prefix; [done | unfold MAX_LINE; lia |].
    destruct Hmore as [?|?]; [by left | right; unfold MAX_LINE; lia].
  - by apply line_nul_free.
  - rewrite E.
    destruct (recv_loop_sent cl1 (Z.of_nat (length t - 1)) replies)
      as (-> & -> & _). by rewrite Hs, Hr.
Qed.

Lemma X17_line_without_newline_loses_last_character_witness :
  stdin_rest (sample_client (chars "bye")) = chars "bye" ++ []
  ∧ sent (c_trace (client_turn (sample_client (chars "bye")) []))
    = [chars "by" ++ [0]].
Proof.
  split; [by vm_compute|].
  destruct (X17_line_without_newline_loses_last_character
              (sample_client (chars "bye")) [] (chars "bye") []) as [H _].
  - by vm_compute.
  - by vm_compute.
  - by vm_compute.
  - apply (bool_decide_unpack _). by vm_compute.
  - vm_compute. lia.
  - by left.
  - by vm_compute.
  - exact H.
Defined.



(** ** The parts together *)

Section Together.

Context (L : locale) (inet_addr : list Z → Z).

(** X19: what the client sends for a line is answered by the server
    with the line itself.  For a line of at most 14 characters that is
    neither "exit" nor a reserved request, the client hands the line and a
    NUL to [write]; when the server reads those bytes as one chunk it
    writes back the characters of the line, as many bytes as the client
    then waits for. *)
Theorem X19_line_comes_back_as_typed (cl : client)
    (replies : list (list Z)) (l rest : list Z) (st : server) (fd : Z)
    (io : chunk_io) :
  length (line_buf cl) = MAX_LINE →
  stdin_rest cl = l ++ NL :: rest →
  Forall (λ c, c ≠ 0 ∧ c ≠ NL) l → (length l ≤ 14)%nat →
  l ≠ chars "exit" → l ≠ date_token → l ≠ time_token →
  buf_ok st → is_open st fd →
  sent (c_trace (client_turn cl replies)) = sent (c_trace cl) ++ [data io] →
  data io = l ++ [0]
  ∧ writes (trace (conn_turn L st fd io).2) = writes (trace st) ++ [(fd, l)].
Proof.
  intros Hb Hin Hl Hlen Hexit Hdate Htime Hbuf Ho Hsent.
  assert (take (length (l ++ [NL]) - 1) (l ++ [NL]) = l) as Htk.
  { rewrite length_app. simpl.
    replace (length l + 1 - 1)%nat with (length l) by lia.
    by rewrite take_app_length. }
  pose proof (line_nul_free l Hl) as Hnul.
  destruct (client_turn_text cl replies (l ++ [NL]) rest)
    as (cl1 & E & _ & _ & _ & _ & Hs).
  - done.
  - rewrite Hin. apply fgets_take_line; [done | unfold MAX_LINE; lia].
  - by destruct l.
  - apply Forall_app. split; [done | by repeat constructor].
  - rewrite length_app. simpl. lia.
  - by rewrite Htk.
  - rewrite Htk in Hs. rewrite E in Hsent.
    destruct (recv_loop_sent cl1 (Z.of_nat (length (l ++ [NL]) - 1)) replies)
      as (Hs1 & _).
    rewrite Hs1, Hs in Hsent. apply app_inv_head in Hsent.
    injection Hsent as Hdata. split; [done|].
    assert (text_of (data io) = l) as Htx
      by (rewrite <- Hdata; by apply (text_of_app_nul l [])).
    assert (plain_chunk io) as Hplain.
    { unfold plain_chunk. rewrite Htx, <- Hdata, length_app. simpl.
      repeat split; try done; lia. }
    rewrite (conn_turn_plain L st fd io Hbuf Ho Hplain). cbn [snd].
    by rewrite after_echo_writes, text_of_padded, Htx.
Qed.

Lemma wanted_port_range (opts : list (Z * list Z)) (d : Z) :
  Forall (option_accepted inet_addr) opts → 1 ≤ d ≤ 65535 →
  1 ≤ default d (last (omap port_of opts)) ≤ 65535.
Proof.
  intros Hall. revert d.
  induction Hall as [|o opts Hacc _ IH]; intros d Hd; [done|].
  simpl. destruct (port_of o) as [v|] eqn:E; [|by apply IH].
  rewrite !default_last_cons. apply IH.
  unfold port_of in E.
  destruct (decide (o.1 = opt_p)) as [Hp|Hp]; [|done]. injection E as <-.
  destruct Hacc as [Hx|[Hx|[[Hx _]|[_ [_ Hnz]]]]];
    try (rewrite Hp in Hx; done).
  pose proof (Z.mod_pos_bound (atoi o.2) 65536). lia.
Qed.

(** X20: whatever options [main] accepts, the socket address that
    [set_sockaddr] then builds for [bind] or [connect] carries the port
    that was asked for in network byte order, high byte first, and the
    address that was asked for: the check that the port is not 0 and the
    width of [unsigned short] keep the port within what [htons] takes. *)
Theorem X20_accepted_options_reach_the_socket_address
    (opts : list (Z * list Z)) (little_endian : bool) :
  Forall (option_accepted inet_addr) opts →
  ∃ s',
    (main inet_addr opts = RunServer s' ∨ main inet_addr opts = RunClient s')
    ∧ bytes16 little_endian (sa_port (set_sockaddr little_endian s'))
      = [wanted_port opts / 256; wanted_port opts mod 256]
    ∧ sa_addr (set_sockaddr little_endian s') = wanted_address inet_addr opts.
Proof.
  intros Hall.
  destruct (main_loop_accepted inet_addr opts main_start Hall)
    as (s' & E & Ha & Hp & _).
  exists s'. unfold main. rewrite E.
  split; [destruct (decide _); tauto|].
  assert (1 ≤ port s' ≤ 65535) as Hrange.
  { rewrite Hp. apply wanted_port_range; [done | by vm_compute]. }
  split; [|exact Ha].
  unfold set_sockaddr. cbn [sa_port]. rewrite bytes16_htons by lia.
  by rewrite Hp.
Qed.

End Together.

Lemma X19_line_comes_back_as_typed_witness :
  sent (c_trace (client_turn (sample_client (chars "hello" ++ [NL])) []))
  = sent (c_trace (sample_client (chars "hello" ++ [NL])))
    ++ [chars "hello" ++ [0]]
  ∧ writes (trace (conn_turn sample_locale sample_connected 5
                     (ChunkIO (chars "hello" ++ [0]) 5 0)).2)
    = writes (trace sample_connected) ++ [(5, chars "hello")].
Proof.
  split; [by vm_compute|].
  destruct (X19_line_comes_back_as_typed sample_locale
              (sample_client (chars "hello" ++ [NL])) [] (chars "hello") []
              sample_connected 5 (ChunkIO (chars "hello" ++ [0]) 5 0))
    as [_ H].
  - by vm_compute.
  - by vm_compute.
  - apply (bool_decide_unpack _). by vm_compute.
  - vm_compute. lia.
  - by vm_compute.
  - by vm_compute.
  - by vm_compute.
  - by vm_compute.
  - by vm_compute.
  - by vm_compute.
  - exact H.
Defined.

Lemma X20_accepted_options_reach_the_socket_address_witness :
  Forall (option_accepted sample_inet_addr)
    [(opt_a, chars "127.0.0.1"); (opt_p, chars "8080")]
  ∧ ∃ s',
      main sample_inet_addr [(opt_a, chars "127.0.0.1"); (opt_p, chars "8080")]
      = RunServer s'
      ∧ bytes16 true (sa_port (set_sockaddr true s')) = [31; 144].
Proof.
  split; [apply (bool_decide_unpack _); by vm_compute|].
  destruct (X20_accepted_options_reach_the_socket_address sample_inet_addr
              [(opt_a, chars "127.0.0.1"); (opt_p, chars "8080")] true)
    as (s' & Hrun & Hb & _).
  - apply (bool_decide_unpack _). by vm_compute.
  - exists s'. split; [|exact Hb].
    destruct Hrun as [Hs|Hc]; [exact Hs|].
    vm_compute in Hc. discriminate Hc.
Defined.
